(** * DoublyBufferedData: a sequential model of the two-slot container

    The model follows [doubly_buffered_data.h].  One call of a member
    function is run to completion by one thread; what the call does to the
    container, to the heap of [Wrapper] objects and to the per-thread
    storage is explicit state, and what it does to the outside (mutex
    acquisitions, applications of the user's function, the release store of
    the index, lines written to [std::cerr]) is appended to a trace.
    Waiting for a mutex held by another thread is not represented: a lock
    operation is recorded and succeeds. *)

From Stdlib Require Import ZArith NArith DecimalString.
From stdpp Require Import base tactics option list gmap strings.

(** ** Basic types *)

(** [size_t]: the container only tests it against zero and compares two of
    them, so the upper bound of the machine type plays no part. *)
Definition size_t := N.

(** Address of a heap-allocated [Wrapper]; [Wrapper*] is [option addr],
    [None] being [NULL]. *)
Definition addr := positive.

(** Identity of the calling thread, the implicit argument of
    [pthread_getspecific] and [pthread_setspecific]. *)
Definition tid := nat.

(** The three kinds of [pthread_mutex_t] of the header. *)
Inductive mutex :=
| _modify_mutex
| _wrappers_mutex
| _mutex (w : addr).

Inductive event :=
| Lock (m : mutex)
| Unlock (m : mutex)
| Apply (i : Z)        (* fn(_data[i]) *)
| Publish (i : Z)      (* _index.store(i, memory_order_release) *)
| Cerr (msg : string). (* one line on std::cerr *)

Global Instance mutex_eq_dec : EqDecision mutex.
Proof. solve_decision. Defined.

Global Instance event_eq_dec : EqDecision event.
Proof. solve_decision. Defined.

(** [!x] on an [int], converted back to [int]. *)
Definition lnot (x : Z) : Z := if (x =? 0)%Z then 1%Z else 0%Z.

(** [std::endl]. *)
Definition endl : string := String (Ascii.ascii_of_nat 10) EmptyString.

(** [operator<<] on an [int]. *)
Definition show_int (x : Z) : string := NilEmpty.string_of_int (Z.to_int x).

(** The back-pointer [DoublyBufferedData* _control] of a [Wrapper]: the model
    has one container, so the pointer is [NULL] or [this]. *)
Inductive control_ptr := NULL_control | this_control.

Global Instance control_ptr_eq_dec : EqDecision control_ptr.
Proof. solve_decision. Defined.

Record Wrapper := mkWrapper { _control : control_ptr }.

(** [ScopedPtr]: [_data] is [NULL] or [_data + k] of the container, kept as
    the offset [k]; [_w] is the reader record whose mutex the guard holds. *)
Module ScopedPtr.
Record t := mk { _data : option Z; _w : option addr }.
(** [ScopedPtr() : _data(NULL), _w(NULL)] *)
Definition default : t := {| _data := None; _w := None |}.
End ScopedPtr.

Section DoublyBufferedData.

Context {T : Type}.

(** ** The container and the world around it *)

Record DoublyBufferedData := mkDBD {
  _data : T * T;             (* T _data[2] *)
  _index : Z;                (* butil::atomic<int> _index *)
  _created_key : bool;
  _wrapper_key : Z;
  _wrappers : list addr      (* std::vector<Wrapper*> _wrappers *)
}.

Record world := mkWorld {
  dbd : DoublyBufferedData;
  heap : gmap addr Wrapper;   (* live Wrapper objects *)
  specific : gmap tid addr;   (* value bound to _wrapper_key in each thread *)
  trace : list event
}.

(** [_data[i]] for [i] in [{0, 1}]; every index the container uses is the
    result of [lnot] or the stored [_index] (see [lnot_range]). *)
Definition data_get (d : T * T) (i : Z) : T :=
  if (i =? 0)%Z then fst d else snd d.

Definition data_set (d : T * T) (i : Z) (v : T) : T * T :=
  if (i =? 0)%Z then (v, snd d) else (fst d, v).

(** [*ptr] for a pointer [_data + k] into the container's array. *)
Definition deref (d : T * T) (p : option Z) : option T :=
  match p with
  | Some k =>
      if bool_decide (k = 0 ∨ k = 1)%Z then Some (data_get d k) else None
  | None => None
  end.

(** ** State monad *)

Definition M (A : Type) : Type := world → A * world.

Global Instance M_ret : MRet M := λ A a s, (a, s).
Global Instance M_bind : MBind M := λ A B f m s, let '(a, s') := m s in f a s'.

Definition get_dbd : M DoublyBufferedData := λ s, (dbd s, s).
Definition put_dbd (c : DoublyBufferedData) : M unit :=
  λ s, (tt, mkWorld c (heap s) (specific s) (trace s)).
Definition get_heap : M (gmap addr Wrapper) := λ s, (heap s, s).
Definition put_heap (h : gmap addr Wrapper) : M unit :=
  λ s, (tt, mkWorld (dbd s) h (specific s) (trace s)).
Definition emit (e : event) : M unit :=
  λ s, (tt, mkWorld (dbd s) (heap s) (specific s) (trace s ++ [e])).

Definition set_data (d : T * T) (c : DoublyBufferedData) :=
  mkDBD d (_index c) (_created_key c) (_wrapper_key c) (_wrappers c).
Definition set_index (i : Z) (c : DoublyBufferedData) :=
  mkDBD (_data c) i (_created_key c) (_wrapper_key c) (_wrappers c).
Definition set_wrappers (ws : list addr) (c : DoublyBufferedData) :=
  mkDBD (_data c) (_index c) (_created_key c) (_wrapper_key c) ws.

(** [pthread_mutex_lock] is recorded and returns 0: every mutex of the header
    is initialised with default attributes ([pthread_mutex_init(&m, NULL)]),
    and the model runs one call at a time. *)
Definition pthread_mutex_lock (m : mutex) : M unit := emit (Lock m).
Definition pthread_mutex_unlock (m : mutex) : M unit := emit (Unlock m).

(** [BAIDU_SCOPED_LOCK(m)] of [scoped_lock.h] declares a
    [std::lock_guard<pthread_mutex_t>] on [m]: its constructor calls
    [pthread_mutex_lock(&m)], and its destructor, run when the enclosing
    scope is left whichever way that happens, calls
    [pthread_mutex_unlock(&m)]; [scope] is the rest of that scope.  This is
    the guard for a [pthread_mutex_lock] that returns 0.  Built without
    [NDEBUG], the constructor also tests the return value: on a non-zero one
    it writes a line to [std::cerr] and clears its pointer, and the
    destructor then unlocks nothing.  That branch lies outside the model,
    whose [pthread_mutex_lock] does not fail; every statement below about
    mutexes is a statement about runs in which each lock succeeds. *)
Definition BAIDU_SCOPED_LOCK {A} (m : mutex) (scope : M A) : M A :=
  pthread_mutex_lock m;;
  a ← scope;
  pthread_mutex_unlock m;;
  mret a.

(** [_index.load(order)] and [_index.store(i, memory_order_release)]; in a
    run of one call at a time the memory orders make no difference, and the
    store is recorded. *)
Definition index_load : M Z :=
  c ← get_dbd;
  mret (_index c).

Definition index_store (i : Z) : M unit :=
  c ← get_dbd;
  put_dbd (set_index i c);;
  emit (Publish i).

Fixpoint for_each {A} (f : A → M unit) (l : list A) : M unit :=
  match l with
  | [] => mret tt
  | x :: l' => f x;; for_each f l'
  end.

(** ** Callables

    [Modify] is a template over [Fn]; all it asks of [fn] is that
    [fn(_data[i])] be well formed.  A callable is passed by reference
    ([Fn& fn]) and may carry state of its own.  [call fn d i] runs
    [fn(_data[i])] with the array holding [d]: the callable may read the
    array (the [WithFG] adaptors hold its address), writes through the
    reference it is given, and returns a [size_t].  The result is the
    callable after the call, the value it leaves in [_data[i]] and the
    returned number. *)
Class Callable (Fn : Type) := call : Fn → T * T → Z → Fn * T * size_t.

(** What the user hands in: [fn(T&)], [fn(T&, const Arg1&)],
    [fn(T&, const Arg1&, const Arg2&)] and the same three with a
    [const T&] foreground in second place. *)
Class Fn0 (Fn : Type) := apply0 : Fn → T → Fn * T * size_t.
Class Fn1 (Fn A1 : Type) := apply1 : Fn → T → A1 → Fn * T * size_t.
Class Fn2 (Fn A1 A2 : Type) :=
  apply2 : Fn → T → A1 → A2 → Fn * T * size_t.
Class FnFG0 (Fn : Type) := applyFG0 : Fn → T → T → Fn * T * size_t.
Class FnFG1 (Fn A1 : Type) :=
  applyFG1 : Fn → T → T → A1 → Fn * T * size_t.
Class FnFG2 (Fn A1 A2 : Type) :=
  applyFG2 : Fn → T → T → A1 → A2 → Fn * T * size_t.

(** A user callable taking [T&] alone is passed to [Modify] as it is: it
    sees the slot it is given and nothing else. *)
Global Instance Fn0_call `{Fn0 Fn} : Callable Fn := λ fn d i,
  apply0 fn (data_get d i).

(** [&bg == _data] as an index: 1 when [bg] is [_data[0]], else 0. *)
Definition other_index (i : Z) : Z := if (i =? 0)%Z then 1%Z else 0%Z.

Record WithFG0 (Fn : Type) := mkWithFG0 { fg0_fn : Fn }.
Global Arguments mkWithFG0 {Fn} _.
Global Arguments fg0_fn {Fn} _.

Global Instance WithFG0_call `{FnFG0 Fn} : Callable (WithFG0 Fn) := λ c d i,
  let '(f, v, r) :=
    applyFG0 (fg0_fn c) (data_get d i) (data_get d (other_index i)) in
  (mkWithFG0 f, v, r).

Record WithFG1 (Fn A1 : Type) := mkWithFG1 { fg1_fn : Fn; fg1_arg1 : A1 }.
Global Arguments mkWithFG1 {Fn A1} _ _.
Global Arguments fg1_fn {Fn A1} _.
Global Arguments fg1_arg1 {Fn A1} _.

Global Instance WithFG1_call `{FnFG1 Fn A1} : Callable (WithFG1 Fn A1) :=
  λ c d i,
  let '(f, v, r) :=
    applyFG1 (fg1_fn c) (data_get d i) (data_get d (other_index i))
             (fg1_arg1 c) in
  (mkWithFG1 f (fg1_arg1 c), v, r).

Record WithFG2 (Fn A1 A2 : Type) :=
  mkWithFG2 { fg2_fn : Fn; fg2_arg1 : A1; fg2_arg2 : A2 }.
Global Arguments mkWithFG2 {Fn A1 A2} _ _ _.
Global Arguments fg2_fn {Fn A1 A2} _.
Global Arguments fg2_arg1 {Fn A1 A2} _.
Global Arguments fg2_arg2 {Fn A1 A2} _.

Global Instance WithFG2_call `{FnFG2 Fn A1 A2} :
  Callable (WithFG2 Fn A1 A2) := λ c d i,
  let '(f, v, r) :=
    applyFG2 (fg2_fn c) (data_get d i) (data_get d (other_index i))
             (fg2_arg1 c) (fg2_arg2 c) in
  (mkWithFG2 f (fg2_arg1 c) (fg2_arg2 c), v, r).

Record Closure1 (Fn A1 : Type) := mkClosure1 { c1_fn : Fn; c1_arg1 : A1 }.
Global Arguments mkClosure1 {Fn A1} _ _.
Global Arguments c1_fn {Fn A1} _.
Global Arguments c1_arg1 {Fn A1} _.

Global Instance Closure1_call `{Fn1 Fn A1} : Callable (Closure1 Fn A1) :=
  λ c d i,
  let '(f, v, r) := apply1 (c1_fn c) (data_get d i) (c1_arg1 c) in
  (mkClosure1 f (c1_arg1 c), v, r).

Record Closure2 (Fn A1 A2 : Type) :=
  mkClosure2 { c2_fn : Fn; c2_arg1 : A1; c2_arg2 : A2 }.
Global Arguments mkClosure2 {Fn A1 A2} _ _ _.
Global Arguments c2_fn {Fn A1 A2} _.
Global Arguments c2_arg1 {Fn A1 A2} _.
Global Arguments c2_arg2 {Fn A1 A2} _.

Global Instance Closure2_call `{Fn2 Fn A1 A2} :
  Callable (Closure2 Fn A1 A2) := λ c d i,
  let '(f, v, r) :=
    apply2 (c2_fn c) (data_get d i) (c2_arg1 c) (c2_arg2 c) in
  (mkClosure2 f (c2_arg1 c) (c2_arg2 c), v, r).

(** [fn(_data[i])] inside a member function: run the callable on the
    current array and store what it wrote. *)
Definition invoke `{Callable Fn} (fn : Fn) (i : Z) : M (Fn * size_t) :=
  c ← get_dbd;
  emit (Apply i);;
  let '(fn', v, r) := call fn (_data c) i in
  put_dbd (set_data (data_set (_data c) i v) c);;
  mret (fn', r).

(** [Wrapper::WaitReadDone] *)
Definition WaitReadDone (w : addr) : M unit :=
  BAIDU_SCOPED_LOCK (_mutex w) (mret tt).

(** ** [Modify] *)

Definition Modify `{Callable Fn} (fn : Fn) : M (Fn * size_t) :=
  BAIDU_SCOPED_LOCK _modify_mutex (
    i ← index_load;
    let bg_index := lnot i in
    '(fn, ret) ← invoke fn bg_index;
    if (ret =? 0)%N then mret (fn, 0%N)
    else
      index_store bg_index;;
      let bg_index := lnot bg_index in
      BAIDU_SCOPED_LOCK _wrappers_mutex (
        c ← get_dbd;
        for_each WaitReadDone (_wrappers c));;
      '(fn, ret2) ← invoke fn bg_index;
      (if (ret2 =? ret)%N then
         i ← index_load;
         emit (Cerr ("Modify index=" +:+ show_int i +:+ endl))
       else mret tt);;
      mret (fn, ret2)).

(** [Modify(fn, arg1)] and [Modify(fn, arg1, arg2)]. *)
Definition Modify1 `{Fn1 Fn A1} (fn : Fn) (arg1 : A1) : M (Fn * size_t) :=
  '(c, r) ← Modify (mkClosure1 fn arg1);
  mret (c1_fn c, r).

Definition Modify2 `{Fn2 Fn A1 A2} (fn : Fn) (arg1 : A1) (arg2 : A2)
  : M (Fn * size_t) :=
  '(c, r) ← Modify (mkClosure2 fn arg1 arg2);
  mret (c2_fn c, r).

(** [ModifyWithForeground] with zero, one and two extra arguments. *)
Definition ModifyWithForeground `{FnFG0 Fn} (fn : Fn) : M (Fn * size_t) :=
  '(c, r) ← Modify (mkWithFG0 fn);
  mret (fg0_fn c, r).

Definition ModifyWithForeground1 `{FnFG1 Fn A1} (fn : Fn) (arg1 : A1)
  : M (Fn * size_t) :=
  '(c, r) ← Modify (mkWithFG1 fn arg1);
  mret (fg1_fn c, r).

Definition ModifyWithForeground2 `{FnFG2 Fn A1 A2} (fn : Fn) (arg1 : A1)
  (arg2 : A2) : M (Fn * size_t) :=
  '(c, r) ← Modify (mkWithFG2 fn arg1 arg2);
  mret (fg2_fn c, r).

(** ** The reader registry *)

Definition get_specific : M (gmap tid addr) := λ s, (specific s, s).
Definition put_specific (sp : gmap tid addr) : M unit :=
  λ s, (tt, mkWorld (dbd s) (heap s) sp (trace s)).

(** The loop of [RemoveWrapper]: the first [i] with [_wrappers[i] == w]. *)
Fixpoint find_wrapper (w : addr) (rest : list addr) (i : nat) : option nat :=
  match rest with
  | [] => None
  | x :: rest' =>
      if decide (x = w) then Some i else find_wrapper w rest' (S i)
  end.

(** [_wrappers[i] = _wrappers.back(); _wrappers.pop_back();] *)
Definition swap_pop (i : nat) (ws : list addr) : list addr :=
  match last ws with
  | Some b => removelast (<[i := b]> ws)
  | None => ws
  end.

Definition RemoveWrapper (w : option addr) : M unit :=
  match w with
  | None => mret tt
  | Some w =>
      BAIDU_SCOPED_LOCK _wrappers_mutex (
        c ← get_dbd;
        match find_wrapper w (_wrappers c) 0 with
        | Some i => put_dbd (set_wrappers (swap_pop i (_wrappers c)) c)
        | None => mret tt
        end)
  end.

(** [~Wrapper()].  A record that is not live cannot be destroyed; the
    model leaves the world alone there. *)
Definition Wrapper_dtor (w : addr) : M unit :=
  h ← get_heap;
  match h !! w with
  | Some wr =>
      if decide (_control wr ≠ NULL_control) then RemoveWrapper (Some w)
      else mret tt
  | None => mret tt
  end.

(** [delete w]: destructor, then the storage goes back to the heap. *)
Definition delete_Wrapper (w : option addr) : M unit :=
  match w with
  | None => mret tt
  | Some w =>
      Wrapper_dtor w;;
      h ← get_heap;
      put_heap (delete w h)
  end.

(** What the platform decides during a first [Read] of a thread: whether
    [new (std::nothrow) Wrapper] returns an object, whether
    [_wrappers.push_back] throws, and the result of [pthread_setspecific]. *)
Record read_env := mkReadEnv {
  new_succeeds : bool;
  push_back_throws : bool;
  pthread_setspecific_rc : Z
}.

(** [AddWrapper].  The new object lives at an address that is not in use.
    [pushed] tells whether the [try] block ran to its end; when [push_back]
    throws, unwinding releases the scoped lock, the handler returns [NULL]
    and the [unique_ptr] deletes the record. *)
Definition AddWrapper (env : read_env) : M (option addr) :=
  if new_succeeds env then
    h ← get_heap;
    let w := fresh (dom h) in
    put_heap (<[w := mkWrapper this_control]> h);;
    pushed ← BAIDU_SCOPED_LOCK _wrappers_mutex (
      if push_back_throws env then mret false
      else
        c ← get_dbd;
        put_dbd (set_wrappers (_wrappers c ++ [w]) c);;
        mret true);
    if pushed : bool then mret (Some w)
    else
      delete_Wrapper (Some w);;
      mret None
  else mret None.

(** ** Construction and destruction *)

(** What [type_traits.h] says about [T], and [T()]. *)
Class Value := {
  T_default : T;
  is_integral : bool;
  is_floating_point : bool;
  is_pointer : bool;
  is_member_function_pointer : bool
}.

(** What the platform decides during construction: the result of
    [pthread_key_create], the key it hands out, the text of [strerror_r],
    and what default-initialisation of [T _data[2]] leaves in the array
    (the default constructor's result for a class type, whatever the memory
    held for a scalar). *)
Record ctor_env := mkCtorEnv {
  pthread_key_create_rc : Z;
  new_key : Z;
  strerror_r : Z → string;
  default_init : T * T
}.

Definition DoublyBufferedData_ctor `{Value} (env : ctor_env) : world :=
  let s0 := mkWorld (mkDBD (default_init env) 0 false 0 []) ∅ ∅ [] in
  snd ((
    let rc := pthread_key_create_rc env in
    (if negb (rc =? 0)%Z then
       emit (Cerr ("Fail to pthread_key_create: " +:+ strerror_r env rc
                   +:+ endl))
     else
       c ← get_dbd;
       put_dbd (mkDBD (_data c) (_index c) true (new_key env) (_wrappers c)));;
    if is_integral || is_floating_point || is_pointer
       || is_member_function_pointer then
      c ← get_dbd;
      put_dbd (set_data (data_set (_data c) 0 T_default) c);;
      c ← get_dbd;
      put_dbd (set_data (data_set (_data c) 1 T_default) c)
    else mret tt) s0).

(** The body of the destructor's loop:
    [_wrappers[i]->_control = NULL; delete _wrappers[i];] *)
Definition detach_and_delete (w : addr) : M unit :=
  h ← get_heap;
  put_heap (alter (λ _, mkWrapper NULL_control) w h);;
  delete_Wrapper (Some w).

(** [~DoublyBufferedData()].  [pthread_key_delete] runs no destructor and
    makes the per-thread values unreachable. *)
Definition DoublyBufferedData_dtor : M unit :=
  c ← get_dbd;
  (if _created_key c then put_specific ∅ else mret tt);;
  BAIDU_SCOPED_LOCK _wrappers_mutex (
    c ← get_dbd;
    for_each detach_and_delete (_wrappers c);;
    c ← get_dbd;
    put_dbd (set_wrappers [] c)).

(** ** [Read] and the guard *)

Definition BeginRead (w : addr) : M unit := pthread_mutex_lock (_mutex w).
Definition EndRead (w : addr) : M unit := pthread_mutex_unlock (_mutex w).

(** [_data + _index.load(memory_order_acquire)] *)
Definition UnsafeRead : M (option Z) :=
  i ← index_load;
  mret (Some i).

Definition Read (t : tid) (env : read_env) (ptr : ScopedPtr.t)
  : M (Z * ScopedPtr.t) :=
  c ← get_dbd;
  if negb (_created_key c) then mret ((-1)%Z, ptr)
  else
    sp ← get_specific;
    match sp !! t with
    | Some w =>
        BeginRead w;;
        p ← UnsafeRead;
        mret (0%Z, ScopedPtr.mk p (Some w))
    | None =>
        w ← AddWrapper env;
        match w with
        | Some w =>
            let rc := pthread_setspecific_rc env in
            if (rc =? 0)%Z then
              sp ← get_specific;
              put_specific (<[t := w]> sp);;
              BeginRead w;;
              p ← UnsafeRead;
              mret (0%Z, ScopedPtr.mk p (Some w))
            else mret ((-1)%Z, ptr)
        | None => mret ((-1)%Z, ptr)
        end
    end.

(** [~ScopedPtr()] *)
Definition ScopedPtr_dtor (ptr : ScopedPtr.t) : M unit :=
  match ScopedPtr._w ptr with
  | Some w => EndRead w
  | None => mret tt
  end.

(** [butil::delete_object<Wrapper>], the destructor registered with the
    key. *)
Definition delete_object (arg : addr) : M unit := delete_Wrapper (Some arg).

(** Thread exit: the platform takes the thread's value for the key and, when
    it is not [NULL], clears it and hands it to the key's destructor. *)
Definition thread_exit (t : tid) : M unit :=
  sp ← get_specific;
  match sp !! t with
  | Some w =>
      put_specific (delete t sp);;
      delete_object w
  | None => mret tt
  end.

End DoublyBufferedData.

Global Arguments DoublyBufferedData : clear implicits.
Global Arguments world : clear implicits.
Global Arguments M : clear implicits.
Global Arguments Value : clear implicits.
Global Arguments ctor_env : clear implicits.

(** ** Callables used in the examples *)

(** A plain function: no state of its own; it maps the slot it is given to
    the slot it leaves and the number it returns. *)
Global Instance pure_Fn0 {T} : Fn0 (T := T) (T → T * size_t) :=
  λ f x, let '(v, r) := f x in (f, v, r).

Global Instance pure_Fn2 {T A1 A2} :
  Fn2 (T := T) (T → A1 → A2 → T * size_t) A1 A2 :=
  λ f x a1 a2, let '(v, r) := f x a1 a2 in (f, v, r).

Global Instance pure_FnFG0 {T} : FnFG0 (T := T) (T → T → T * size_t) :=
  λ f x fg, let '(v, r) := f x fg in (f, v, r).

(** A function object with a member of type [S] that [operator()] may
    update. *)
Record Functor (T S : Type) := mkFunctor {
  fstate : S;
  fbody : S → T → S * T * size_t
}.
Global Arguments mkFunctor {T S} _ _.
Global Arguments fstate {T S} _.
Global Arguments fbody {T S} _.

Global Instance Functor_Fn0 {T S} : Fn0 (T := T) (Functor T S) :=
  λ f x, let '(st, v, r) := fbody f (fstate f) x in
         (mkFunctor st (fbody f), v, r).

(** [T = int]. *)
Global Instance int_Value : Value Z := {|
  T_default := 0%Z;
  is_integral := true;
  is_floating_point := false;
  is_pointer := false;
  is_member_function_pointer := false
|}.

(** [DbdTest] and [AddDbd] of [main.cpp]. *)
Record DbdTest := mkDbdTest { dt_index : Z; dt_body : string }.

Global Instance DbdTest_Value : Value DbdTest := {|
  T_default := mkDbdTest 0 EmptyString;
  is_integral := false;
  is_floating_point := false;
  is_pointer := false;
  is_member_function_pointer := false
|}.

Definition AddDbd (bg : DbdTest) (index : Z) (body : string)
  : DbdTest * size_t :=
  (mkDbdTest index body, 1%N).

(** A function that overwrites its slot with [v] and returns [r]. *)
Definition setter {T} (v : T) (r : size_t) : T → T * size_t := λ _, (v, r).

(** [bg = other + 1], returning [r]. *)
Definition succ_of_other (r : size_t) : Z → Z → Z * size_t :=
  λ _ other, ((other + 1)%Z, r).

(** A function object that writes [v] and returns 1 on its first call and
    0 afterwards. *)
Definition once (v : Z) : Functor Z bool :=
  mkFunctor false (λ done _, (true, v, if done then 0%N else 1%N)).

(** A function object that writes [v] and returns the number of times it
    has been called. *)
Definition counting (v : Z) : Functor Z N :=
  mkFunctor 0%N (λ n _, ((n + 1)%N, v, (n + 1)%N)).

(** A function that writes [v] into its slot and reports no change. *)
Definition silent_write (v : Z) : Z → Z * size_t := λ _, (v, 0%N).

(** ** Invariants of the container *)

Section Invariants.

Context {T : Type}.
Implicit Types s : world T.

Definition index_ok s : Prop :=
  _index (dbd s) = 0%Z ∨ _index (dbd s) = 1%Z.

(** Every registered record is live and points back at the container. *)
Definition registry_live s : Prop :=
  ∀ w, w ∈ _wrappers (dbd s) →
       heap s !! w = Some (mkWrapper this_control).

(** The value a thread has bound to the key is a registered record, and no
    two threads share one. *)
Definition specific_ok s : Prop :=
  (∀ t w, specific s !! t = Some w → w ∈ _wrappers (dbd s)) ∧
  (∀ t1 t2 w,
     specific s !! t1 = Some w → specific s !! t2 = Some w → t1 = t2).

Record wf s : Prop := mkWf {
  wf_index : index_ok s;
  wf_nodup : NoDup (_wrappers (dbd s));
  wf_live : registry_live s;
  wf_specific : specific_ok s
}.

End Invariants.

(** The [Lock]/[Unlock] pairs of the drain loop of [Modify]. *)
Definition drain (ws : list addr) : list event :=
  ws ≫= λ w, [Lock (_mutex w); Unlock (_mutex w)].

(** The indices of the slots [fn] was applied to, in order. *)
Definition applications (evs : list event) : list Z :=
  omap (λ e, match e with Apply i => Some i | _ => None end) evs.

Definition is_writer_step (e : event) : bool :=
  match e with Apply _ | Publish _ => true | _ => false end.

(** Applications and publications, in order. *)
Definition writer_steps (evs : list event) : list event :=
  List.filter is_writer_step evs.

Definition is_Cerr (e : event) : bool :=
  match e with Cerr _ => true | _ => false end.

(** The lines a run wrote to [std::cerr]. *)
Definition diagnostics (evs : list event) : list event :=
  List.filter is_Cerr evs.

(** The two applications of [fn] that [Modify] can make from a state:
    the one on the background slot on entry, and the one on the former
    foreground slot, which sees what the first one wrote. *)
Section Phases.

Context {T Fn : Type} `{!Callable (T := T) Fn}.

Definition first_application (fn : Fn) (s : world T) : Fn * T * size_t :=
  call fn (_data (dbd s)) (lnot (_index (dbd s))).

Definition second_application (fn : Fn) (s : world T) : Fn * T * size_t :=
  let bg := lnot (_index (dbd s)) in
  let '(fn1, v1, _) := first_application fn s in
  call fn1 (data_set (_data (dbd s)) bg v1) (lnot bg).

End Phases.

(** A freshly constructed [DoublyBufferedData<int>] whose key was created,
    and the container of [main.cpp]. *)
Definition int_env : ctor_env Z :=
  mkCtorEnv 0 0 (λ _, "Cannot allocate memory") (0%Z, 0%Z).

Definition int_dbd : world Z := DoublyBufferedData_ctor int_env.

Definition DbdTest_env : ctor_env DbdTest :=
  mkCtorEnv 0 0 (λ _, "Cannot allocate memory")
    (mkDbdTest 0 EmptyString, mkDbdTest 0 EmptyString).

Definition main_dbd : world DbdTest := DoublyBufferedData_ctor DbdTest_env.

(** What a call added to the trace. *)
Definition new_events {T} (s s' : world T) : list event :=
  drop (length (trace s)) (trace s').

(** The early exit read as leaving the whole container as it was. *)
Definition early_exit_leaves_container {T Fn : Type}
  `{!Callable (T := T) Fn} (fn : Fn) (s : world T) : Prop :=
  (first_application fn s).2 = 0%N →
  (Modify fn s).1.2 = 0%N ∧
  dbd (Modify fn s).2 = dbd s ∧
  applications (new_events s (Modify fn s).2) = [lnot (_index (dbd s))] ∧
  new_events s (Modify fn s).2
  = [Lock _modify_mutex; Apply (lnot (_index (dbd s))); Unlock _modify_mutex].

(** The registry after [RemoveWrapper(w)]. *)
Definition remove_wrapper (w : addr) (ws : list addr) : list addr :=
  match find_wrapper w ws 0 with
  | Some i => swap_pop i ws
  | None => ws
  end.

(** The conditions of the constructor's scalar initialisation. *)
Definition scalar_like (T : Type) `{!Value T} : bool :=
  is_integral || is_floating_point || is_pointer
  || is_member_function_pointer.

(** A first [Read] of thread [t] cannot set up the thread's reader record:
    the thread has none yet and the allocation fails, or the insertion into
    the registry throws, or binding the record to the thread fails. *)
Definition registration_fails {T} (t : tid) (env : read_env) (s : world T)
  : Prop :=
  specific s !! t = None ∧
  (new_succeeds env = false ∨ push_back_throws env = true
   ∨ pthread_setspecific_rc env ≠ 0%Z).

(** A first [Read] in which everything works, and the three ways it can
    go wrong: [pthread_setspecific] returns [ENOMEM], [push_back] throws,
    [new] returns [NULL]. *)
Definition env_ok : read_env := mkReadEnv true false 0.
Definition env_setspecific_ENOMEM : read_env := mkReadEnv true false 12.
Definition env_push_back_throws : read_env := mkReadEnv true true 0.
Definition env_new_fails : read_env := mkReadEnv false false 0.

(** The fresh [int] container after threads 0, 1 and 2 have each made a
    first [Read]. *)
Definition int_dbd_3readers : world Z :=
  let s1 := (Read 0%nat env_ok ScopedPtr.default int_dbd).2 in
  let s2 := (Read 1%nat env_ok ScopedPtr.default s1).2 in
  (Read 2%nat env_ok ScopedPtr.default s2).2.

(** The states a program can bring the container to: construction, then
    any sequence of writes, reads, guard releases and thread exits. *)
Inductive reachable {T : Type} `{!Value T} : world T → Prop :=
| reach_ctor env : reachable (DoublyBufferedData_ctor env)
| reach_Modify (Fn : Type) (C : Callable Fn) (fn : Fn) s :
    reachable s → reachable (Modify fn s).2
| reach_Read t env ptr s :
    reachable s → reachable (Read t env ptr s).2
| reach_ScopedPtr_dtor ptr s :
    reachable s → reachable (ScopedPtr_dtor ptr s).2
| reach_thread_exit t s :
    reachable s → reachable (thread_exit t s).2.

(** [main.cpp] up to its first and its second [printf]. *)
Definition main_first_read : Z * ScopedPtr.t * world DbdTest :=
  Read 0%nat env_ok ScopedPtr.default
    (Modify2 AddDbd 1%Z "test-1" main_dbd).2.

Definition main_second_read : Z * ScopedPtr.t * world DbdTest :=
  let s := (ScopedPtr_dtor main_first_read.1.2 main_first_read.2).2 in
  Read 0%nat env_ok ScopedPtr.default (Modify2 AddDbd 2%Z "test-2" s).2.

(** ** Notions used by the further properties *)

Global Instance pure_Fn1 {T A1} : Fn1 (T := T) (T → A1 → T * size_t) A1 :=
  λ f x a1, let '(v, r) := f x a1 in (f, v, r).

Global Instance pure_FnFG1 {T A1} :
  FnFG1 (T := T) (T → T → A1 → T * size_t) A1 :=
  λ f x fg a1, let '(v, r) := f x fg a1 in (f, v, r).

Global Instance pure_FnFG2 {T A1 A2} :
  FnFG2 (T := T) (T → T → A1 → A2 → T * size_t) A1 A2 :=
  λ f x fg a1 a2, let '(v, r) := f x fg a1 a2 in (f, v, r).

(** [bg += k], returning 1. *)
Definition add_const (bg k : Z) : Z * size_t := ((bg + k)%Z, 1%N).

(** [bg = other + k], and [bg = a * other + b], both returning 1. *)
Definition other_plus (bg other k : Z) : Z * size_t := ((other + k)%Z, 1%N).
Definition other_affine (bg other a b : Z) : Z * size_t :=
  ((a * other + b)%Z, 1%N).

(** The mutexes are not recursive and the code releases them in scopes.
    [lock_run held evs] follows the [Lock] and [Unlock] events of [evs]
    from the stack [held] of mutexes held, most recent first: locking a
    mutex that is held, or unlocking one that is not the most recent, is
    [None]; otherwise the result is the stack at the end. *)
Fixpoint lock_run (held : list mutex) (evs : list event)
  : option (list mutex) :=
  match evs with
  | [] => Some held
  | Lock m :: evs' =>
      if decide (m ∈ held) then None else lock_run (m :: held) evs'
  | Unlock m :: evs' =>
      match held with
      | m' :: held' => if decide (m = m') then lock_run held' evs' else None
      | [] => None
      end
  | _ :: evs' => lock_run held evs'
  end.

(** [foreground_untouched fg evs]: following the publications of [evs]
    from the foreground index [fg], no application of [fn] is to the slot
    that is foreground at that moment. *)
Fixpoint foreground_untouched (fg : Z) (evs : list event) : bool :=
  match evs with
  | [] => true
  | Apply i :: evs' => negb (i =? fg)%Z && foreground_untouched fg evs'
  | Publish j :: evs' => foreground_untouched j evs'
  | _ :: evs' => foreground_untouched fg evs'
  end.

Definition is_lock_event (e : event) : bool :=
  match e with Lock _ | Unlock _ => true | _ => false end.

(** The acquisitions and releases of mutexes, in order. *)
Definition lock_events (evs : list event) : list event :=
  List.filter is_lock_event evs.

Section MoreInvariants.

Context {T : Type}.
Implicit Types s : world T.

(** The registered records are exactly the live ones. *)
Definition registry_is_heap s : Prop :=
  ∀ w, w ∈ _wrappers (dbd s) ↔ is_Some (heap s !! w).

(** Without a key no thread has a record. *)
Definition no_key_no_readers s : Prop :=
  _created_key (dbd s) = false →
  _wrappers (dbd s) = [] ∧ specific s = ∅.

(** The states reached from [s0] by writes, reads, guard releases and
    thread exits. *)
Inductive reachable_from (s0 : world T) : world T → Prop :=
| from_start : reachable_from s0 s0
| from_Modify (Fn : Type) (C : Callable Fn) (fn : Fn) s :
    reachable_from s0 s → reachable_from s0 (Modify fn s).2
| from_Read t env ptr s :
    reachable_from s0 s → reachable_from s0 (Read t env ptr s).2
| from_ScopedPtr_dtor ptr s :
    reachable_from s0 s → reachable_from s0 (ScopedPtr_dtor ptr s).2
| from_thread_exit t s :
    reachable_from s0 s → reachable_from s0 (thread_exit t s).2.

(** A run of writes with setters, one after the other. *)
Definition modify_all (vs : list (T * size_t)) (s : world T) : world T :=
  foldl (λ s vr, (Modify (setter vr.1 vr.2) s).2) s vs.

End MoreInvariants.

(** A fresh [int] container whose key could not be created. *)
Definition int_env_nokey : ctor_env Z :=
  mkCtorEnv 11 0 (λ _, "Resource temporarily unavailable") (0%Z, 0%Z).

Definition int_dbd_nokey : world Z := DoublyBufferedData_ctor int_env_nokey.

(** * Properties *)

Ltac run :=
  unfold BAIDU_SCOPED_LOCK, index_load, index_store, delete_object;
  unfold mbind, M_bind, mret, M_ret, get_dbd, put_dbd, get_heap, put_heap,
    get_specific, put_specific, pthread_mutex_lock, pthread_mutex_unlock,
    emit; simpl.

(** Like [run], without unfolding the functions that are called. *)
Ltac step :=
  unfold BAIDU_SCOPED_LOCK, index_load, index_store, delete_object;
  unfold mbind, M_bind, mret, M_ret, get_dbd, put_dbd, get_heap, put_heap,
    get_specific, put_specific, pthread_mutex_lock, pthread_mutex_unlock,
    emit;
  cbn [dbd heap specific trace fst snd _data _index _created_key
       _wrapper_key _wrappers set_data set_index set_wrappers].

Lemma lnot_range x : lnot x = 0%Z ∨ lnot x = 1%Z.
Proof. unfold lnot. destruct (x =? 0)%Z; auto. Qed.

Lemma lnot_flip x : x = 0%Z ∨ x = 1%Z → lnot x = (1 - x)%Z.
Proof. intros [-> | ->]; reflexivity. Qed.

Lemma lnot_involutive x : x = 0%Z ∨ x = 1%Z → lnot (lnot x) = x.
Proof. intros [-> | ->]; reflexivity. Qed.

Lemma other_index_lnot i : other_index i = lnot i.
Proof. reflexivity. Qed.

Section Slots.

Context {T : Type}.
Implicit Types (d : T * T) (v : T).

Lemma data_get_set_same d i v : data_get (data_set d i v) i = v.
Proof. unfold data_get, data_set. destruct (i =? 0)%Z; reflexivity. Qed.

Lemma data_get_set_lnot d i v :
  data_get (data_set d (lnot i) v) i = data_get d i.
Proof. unfold data_get, data_set, lnot. destruct (i =? 0)%Z; reflexivity. Qed.

Lemma data_get_lnot_set d i v :
  data_get (data_set d i v) (lnot i) = data_get d (lnot i).
Proof. unfold data_get, data_set, lnot. destruct (i =? 0)%Z; reflexivity. Qed.

Lemma data_set_get d i : data_set d i (data_get d i) = d.
Proof.
  unfold data_get, data_set. destruct d, (i =? 0)%Z; reflexivity.
Qed.

Lemma data_set_both d i v1 v2 :
  data_set (data_set d (lnot i) v1) (lnot (lnot i)) v2
  = if (i =? 0)%Z then (v2, v1) else (v1, v2).
Proof. unfold data_set, lnot. destruct d, (i =? 0)%Z; reflexivity. Qed.

End Slots.

Section ModifyFacts.

Context {T Fn : Type} `{!Callable (T := T) Fn}.
Implicit Types (fn : Fn) (s : world T).

Lemma for_each_WaitReadDone ws s :
  for_each WaitReadDone ws s
  = (tt, mkWorld (dbd s) (heap s) (specific s) (trace s ++ drain ws)).
Proof.
  revert s. induction ws as [|w ws IH]; intros [c h sp tr]; simpl.
  - unfold drain. simpl. by rewrite app_nil_r.
  - unfold WaitReadDone. run. rewrite IH. simpl.
    by rewrite <- !app_assoc.
Qed.

(** [Modify] in closed form: the early exit after a zero result, and the
    full pass otherwise. *)
Lemma Modify_eq fn s :
  Modify fn s =
  let c := dbd s in
  let bg := lnot (_index c) in
  let '(fn1, v1, r1) := first_application fn s in
  let d1 := data_set (_data c) bg v1 in
  if (r1 =? 0)%N then
    ((fn1, 0%N),
     mkWorld (set_data d1 c) (heap s) (specific s)
       (trace s ++ [Lock _modify_mutex; Apply bg; Unlock _modify_mutex]))
  else
    let '(fn2, v2, r2) := call fn1 d1 (lnot bg) in
    ((fn2, r2),
     mkWorld
       (mkDBD (data_set d1 (lnot bg) v2) bg (_created_key c)
          (_wrapper_key c) (_wrappers c))
       (heap s) (specific s)
       (trace s
        ++ [Lock _modify_mutex; Apply bg; Publish bg; Lock _wrappers_mutex]
        ++ drain (_wrappers c)
        ++ [Unlock _wrappers_mutex; Apply (lnot bg)]
        ++ (if (r2 =? r1)%N
            then [Cerr ("Modify index=" +:+ show_int bg +:+ endl)]
            else [])
        ++ [Unlock _modify_mutex])).
Proof.
  destruct s as [c h sp tr]. unfold Modify, invoke, first_application. run.
  destruct (call fn (_data c) (lnot (_index c))) as [[fn1 v1] r1]. simpl.
  destruct (r1 =? 0)%N; simpl.
  - by rewrite <- !app_assoc.
  - rewrite for_each_WaitReadDone. simpl.
    destruct (call fn1 _ _) as [[fn2 v2] r2]. simpl.
    destruct (r2 =? r1)%N; simpl; by rewrite <- !app_assoc.
Qed.

End ModifyFacts.

Lemma new_events_app {T} (s s' : world T) evs :
  trace s' = trace s ++ evs → new_events s s' = evs.
Proof. unfold new_events. intros ->. by rewrite drop_app_length. Qed.

Lemma applications_drain ws : applications (drain ws) = [].
Proof. induction ws as [|w ws IH]; [done|]. exact IH. Qed.

Lemma writer_steps_drain ws : writer_steps (drain ws) = [].
Proof. induction ws as [|w ws IH]; [done|]. exact IH. Qed.

Lemma diagnostics_drain ws : List.filter is_Cerr (drain ws) = [].
Proof. induction ws as [|w ws IH]; [done|]. exact IH. Qed.

Section ModifyClaims.

Context {T Fn : Type} `{!Callable (T := T) Fn}.
Implicit Types (fn : Fn) (s : world T).

(** When both applications happen, a line goes to [std::cerr] exactly when
    they returned the same number. *)
Lemma Modify_diagnostic_iff_equal fn s fn1 v1 r1 fn2 v2 r2 :
  first_application fn s = (fn1, v1, r1) → r1 ≠ 0%N →
  second_application fn s = (fn2, v2, r2) →
  diagnostics (new_events s (Modify fn s).2) ≠ [] ↔ r2 = r1.
Proof.
  intros H1 Hr1 H2. unfold second_application in H2.
  rewrite Modify_eq, H1 in *. simpl. rewrite H2.
  apply N.eqb_neq in Hr1. rewrite Hr1. simpl.
  erewrite new_events_app by reflexivity.
  unfold diagnostics. simpl. rewrite List.filter_app, diagnostics_drain.
  simpl. destruct (r2 =? r1)%N eqn:E; simpl.
  - apply N.eqb_eq in E. done.
  - apply N.eqb_neq in E. done.
Qed.

(** C2: when the first application returns a nonzero [r1], [Modify] stores
    the former background index [1 - _index] into [_index] (the foreground
    index is flipped, by a release store recorded in the trace) and returns
    the result [r2] of the second application, not [r1]. *)
Theorem Modify_flips_index_and_returns_second_result
  fn s fn1 v1 r1 fn2 v2 r2 :
  index_ok s →
  first_application fn s = (fn1, v1, r1) → r1 ≠ 0%N →
  second_application fn s = (fn2, v2, r2) →
  _index (dbd (Modify fn s).2) = (1 - _index (dbd s))%Z ∧
  Publish (1 - _index (dbd s)) ∈ new_events s (Modify fn s).2 ∧
  (Modify fn s).1 = (fn2, r2).
Proof.
  intros Hi H1 Hr1 H2. unfold second_application in H2.
  rewrite Modify_eq, H1 in *. simpl. rewrite H2.
  apply N.eqb_neq in Hr1. rewrite Hr1. simpl.
  erewrite new_events_app by reflexivity.
  rewrite <- (lnot_flip _ Hi). split_and!; [done| |done].
  set_solver.
Qed.

(** C3 (amended): when the first application returns 0, [Modify] returns 0
    at once: [_index], the foreground slot, the registry and the rest of the
    world are as before, [fn] has been applied once and not a second time,
    nothing is published and no reader is waited for.  The background slot
    holds what that one application wrote, so the container is unchanged
    exactly when [fn] left its slot as it found it. *)
Theorem Modify_early_exit fn s fn1 v1 :
  first_application fn s = (fn1, v1, 0%N) →
  let bg := lnot (_index (dbd s)) in
  let s' := (Modify fn s).2 in
  (Modify fn s).1 = (fn1, 0%N) ∧
  _index (dbd s') = _index (dbd s) ∧
  data_get (_data (dbd s')) (_index (dbd s))
  = data_get (_data (dbd s)) (_index (dbd s)) ∧
  _data (dbd s') = data_set (_data (dbd s)) bg v1 ∧
  _wrappers (dbd s') = _wrappers (dbd s) ∧
  _created_key (dbd s') = _created_key (dbd s) ∧
  _wrapper_key (dbd s') = _wrapper_key (dbd s) ∧
  heap s' = heap s ∧ specific s' = specific s ∧
  new_events s s' = [Lock _modify_mutex; Apply bg; Unlock _modify_mutex] ∧
  (dbd s' = dbd s ↔ v1 = data_get (_data (dbd s)) bg).
Proof.
  intros H1 bg s'. subst s'. rewrite Modify_eq, H1. simpl.
  erewrite new_events_app by reflexivity.
  split_and!; try done.
  - apply data_get_set_lnot.
  - split.
    + intros Heq. apply (f_equal _data) in Heq. simpl in Heq.
      rewrite <- Heq at 1. by rewrite data_get_set_same.
    + intros ->. unfold set_data. rewrite data_set_get. by destruct (dbd s).
Qed.

(** C4, first half: a [Modify] that returns nonzero has applied [fn] exactly
    once to each slot, the background first, then the index flip, then the
    former foreground; the slots end up holding what the two applications
    wrote. *)
Lemma Modify_applies_to_both_slots fn s :
  index_ok s → (Modify fn s).1.2 ≠ 0%N →
  let i := _index (dbd s) in
  let s' := (Modify fn s).2 in
  applications (new_events s s') = [(1 - i)%Z; i] ∧
  writer_steps (new_events s s')
  = [Apply (1 - i); Publish (1 - i); Apply i] ∧
  _index (dbd s') = (1 - i)%Z ∧
  ∃ fn1 v1 r1 fn2 v2 r2,
    first_application fn s = (fn1, v1, r1) ∧
    second_application fn s = (fn2, v2, r2) ∧
    _data (dbd s') = data_set (data_set (_data (dbd s)) (1 - i) v1) i v2.
Proof.
  intros Hi Hret i s'. subst s'. revert Hret. unfold second_application.
  rewrite Modify_eq.
  destruct (first_application fn s) as [[fn1 v1] r1] eqn:H1. simpl.
  destruct (r1 =? 0)%N eqn:E; [done|]. simpl.
  destruct (call fn1 _ _) as [[fn2 v2] r2] eqn:H2. simpl. intros Hret.
  erewrite new_events_app by reflexivity.
  rewrite (lnot_involutive _ Hi), (lnot_flip _ Hi) in *. fold i.
  pose proof (applications_drain (_wrappers (dbd s))) as Ha.
  pose proof (writer_steps_drain (_wrappers (dbd s))) as Hw.
  split_and!.
  - unfold applications in *. simpl. rewrite omap_app, Ha. simpl.
    rewrite omap_app. by destruct (r2 =? r1)%N.
  - unfold writer_steps in *. simpl. rewrite List.filter_app, Hw. simpl.
    rewrite List.filter_app. by destruct (r2 =? r1)%N.
  - reflexivity.
  - by exists fn1, v1, r1, fn2, v2, r2.
Qed.

End ModifyClaims.

(** C1: evaluated on the code.  [main.cpp]'s first call,
    [Modify(AddDbd, 1, "test-1")], gets 1 from both applications and writes
    a line to [std::cerr]; a callable whose two applications return 1 and 2
    goes through without any line. *)
Theorem Modify_diagnostic_on_equal_results :
  let c := mkClosure2 AddDbd 1%Z "test-1" in
  (first_application c main_dbd).2 = 1%N ∧
  (second_application c main_dbd).2 = 1%N ∧
  (Modify2 AddDbd 1%Z "test-1" main_dbd).1.2 = 1%N ∧
  diagnostics (trace (Modify2 AddDbd 1%Z "test-1" main_dbd).2)
  = [Cerr ("Modify index=1" +:+ endl)] ∧
  (first_application (counting 5) int_dbd).2 = 1%N ∧
  (second_application (counting 5) int_dbd).2 = 2%N ∧
  (Modify (counting 5) int_dbd).1.2 = 2%N ∧
  diagnostics (trace (Modify (counting 5) int_dbd).2) = [].
Proof. vm_compute. split_and!; reflexivity. Qed.

(** C2 on a fresh [int] container, with a function object that returns 1
    and then 2. *)
Lemma Modify_flips_index_and_returns_second_result_witness :
  _index (dbd (Modify (counting 5) int_dbd).2) = 1%Z ∧
  (Modify (counting 5) int_dbd).1.2 = 2%N.
Proof.
  destruct (Modify_flips_index_and_returns_second_result
              (counting 5) int_dbd
              (mkFunctor 1%N (fbody (counting 5))) 5%Z 1%N
              (mkFunctor 2%N (fbody (counting 5))) 5%Z 2%N)
    as (Hi & _ & Hr).
  - left. reflexivity.
  - reflexivity.
  - discriminate.
  - reflexivity.
  - split; [exact Hi | by rewrite Hr].
Defined.

(** C3 as stated fails: a function that writes 7 into its slot and returns
    0 leaves the background slot of a fresh [int] container at 7. *)
Lemma silent_write_changes_background :
  ¬ early_exit_leaves_container (silent_write 7) int_dbd.
Proof.
  unfold early_exit_leaves_container. intros Hc.
  destruct Hc as (_ & Hd & _); [reflexivity|].
  vm_compute in Hd. discriminate.
Qed.

(** The amended C3 on the same input. *)
Lemma Modify_early_exit_witness :
  (Modify (silent_write 7) int_dbd).1 = (silent_write 7, 0%N) ∧
  _data (dbd (Modify (silent_write 7) int_dbd).2) = (0%Z, 7%Z) ∧
  new_events int_dbd (Modify (silent_write 7) int_dbd).2
  = [Lock _modify_mutex; Apply 1; Unlock _modify_mutex].
Proof.
  destruct (Modify_early_exit (silent_write 7) int_dbd (silent_write 7) 7%Z)
    as (Hr & _ & _ & Hd & _ & _ & _ & _ & _ & He & _).
  - reflexivity.
  - split_and!; [exact Hr | exact Hd | exact He].
Defined.

(** C4: a [Modify] that returns nonzero has applied [fn] exactly once to
    each of the two slots: the slot that was background before the call
    first, then, after the index flip, the slot that was foreground.  The
    flip is the one store of the call, between the two applications, and it
    is in the state the call leaves: [_index] is the other index.  So for
    a setter that overwrites its slot with [v] (and returns nonzero) both
    slots equal [v] after one call, and still after a second one. *)
Theorem Modify_applies_fn_to_both_slots_once :
  (∀ (T Fn : Type) `(!Callable (T := T) Fn) (fn : Fn) (s : world T),
     index_ok s → (Modify fn s).1.2 ≠ 0%N →
     let i := _index (dbd s) in
     let s' := (Modify fn s).2 in
     applications (new_events s s') = [(1 - i)%Z; i] ∧
     writer_steps (new_events s s')
     = [Apply (1 - i); Publish (1 - i); Apply i] ∧
     _index (dbd s') = (1 - i)%Z ∧
     ∃ fn1 v1 r1 fn2 v2 r2,
       first_application fn s = (fn1, v1, r1) ∧
       second_application fn s = (fn2, v2, r2) ∧
       _data (dbd s') = data_set (data_set (_data (dbd s)) (1 - i) v1) i v2) ∧
  (∀ (T : Type) (v : T) (r : size_t) (s : world T),
     r ≠ 0%N →
     let s1 := (Modify (setter v r) s).2 in
     let s2 := (Modify (setter v r) s1).2 in
     (Modify (setter v r) s).1.2 = r ∧ _data (dbd s1) = (v, v) ∧
     (Modify (setter v r) s1).1.2 = r ∧ _data (dbd s2) = (v, v)).
Proof.
  split.
  - intros T Fn ? fn s Hi Hret. by apply Modify_applies_to_both_slots.
  - intros T v r s Hr.
    assert (Hone : ∀ s0 : world T,
      (Modify (setter v r) s0).1.2 = r ∧
      _data (dbd (Modify (setter v r) s0).2) = (v, v)).
    { intros s0. rewrite Modify_eq. unfold first_application. simpl.
      apply N.eqb_neq in Hr. rewrite Hr. simpl. split; [done|].
      rewrite data_set_both. by destruct (_ =? _)%Z. }
    simpl. split_and!; apply Hone.
Qed.

(** C4 on a fresh [int] container with the setter of 5. *)
Lemma Modify_applies_fn_to_both_slots_once_witness :
  (applications (new_events int_dbd (Modify (setter 5%Z 1%N) int_dbd).2)
   = [1%Z; 0%Z]) ∧
  _index (dbd (Modify (setter 5%Z 1%N) int_dbd).2) = 1%Z ∧
  _data (dbd (Modify (setter 5%Z 1%N)
                (Modify (setter 5%Z 1%N) int_dbd).2).2) = (5%Z, 5%Z).
Proof.
  destruct (proj1 Modify_applies_fn_to_both_slots_once Z _ _
              (setter 5%Z 1%N) int_dbd) as (Ha & _ & Hi & _).
  - left. reflexivity.
  - vm_compute. discriminate.
  - split_and!; [exact Ha | exact Hi |].
    apply (proj2 Modify_applies_fn_to_both_slots_once Z 5%Z 1%N int_dbd).
    vm_compute. discriminate.
Defined.

(** C8: some callable returns nonzero on its first application and 0 on its
    second; for every such call [Modify] returns 0 although it has already
    published: [_index] is flipped and the new foreground slot holds what
    the first application wrote, so the container is not what it was. *)
Theorem Modify_zero_after_publication :
  (∃ (fn : Functor Z bool) (s : world Z),
     index_ok s ∧ (first_application fn s).2 ≠ 0%N ∧
     (second_application fn s).2 = 0%N) ∧
  (∀ (T Fn : Type) `(!Callable (T := T) Fn) (fn : Fn) (s : world T)
     fn1 v1 r1 fn2 v2,
     index_ok s →
     first_application fn s = (fn1, v1, r1) → r1 ≠ 0%N →
     second_application fn s = (fn2, v2, 0%N) →
     let s' := (Modify fn s).2 in
     (Modify fn s).1.2 = 0%N ∧
     _index (dbd s') = (1 - _index (dbd s))%Z ∧
     Publish (1 - _index (dbd s)) ∈ new_events s s' ∧
     data_get (_data (dbd s')) (_index (dbd s')) = v1 ∧
     dbd s' ≠ dbd s).
Proof.
  split.
  - exists (once 9), int_dbd. split_and!; [by left|by vm_compute|done].
  - intros T Fn ? fn s fn1 v1 r1 fn2 v2 Hi H1 Hr1 H2.
    unfold second_application in H2.
    rewrite Modify_eq, H1 in *. simpl. rewrite H2.
    apply N.eqb_neq in Hr1. rewrite Hr1. simpl.
    erewrite new_events_app by reflexivity.
    rewrite <- (lnot_flip _ Hi). split_and!; [done|done|set_solver| |].
    + by rewrite data_get_set_lnot, data_get_set_same.
    + intros Heq. apply (f_equal _index) in Heq. simpl in Heq.
      destruct Hi as [Hi | Hi]; rewrite Hi in Heq; discriminate.
Qed.

(** C8 on a fresh [int] container with [once 9]. *)
Lemma Modify_zero_after_publication_witness :
  (Modify (once 9) int_dbd).1.2 = 0%N ∧
  _index (dbd (Modify (once 9) int_dbd).2) = 1%Z ∧
  data_get (_data (dbd (Modify (once 9) int_dbd).2)) 1 = 9%Z.
Proof.
  destruct (proj2 Modify_zero_after_publication Z _ _ (once 9) int_dbd
              (mkFunctor true (fbody (once 9))) 9%Z 1%N
              (mkFunctor true (fbody (once 9))) 9%Z)
    as (Hr & Hi & _ & Hd & _).
  - left. reflexivity.
  - reflexivity.
  - discriminate.
  - reflexivity.
  - split_and!; [exact Hr | exact Hi | ].
    rewrite Hi in Hd. exact Hd.
Defined.

(** The adaptor of [ModifyWithForeground] hands [fn] the slot it is asked
    to mutate and, as [const T&], the other one. *)
Lemma WithFG0_call_other {T Fn : Type} `{!FnFG0 (T := T) Fn}
  (c : WithFG0 Fn) (d : T * T) (i : Z) :
  i = 0%Z ∨ i = 1%Z →
  call c d i =
  let '(f, v, r) :=
    applyFG0 (fg0_fn c) (data_get d i) (data_get d (1 - i)) in
  (mkWithFG0 f, v, r).
Proof. intros [-> | ->]; reflexivity. Qed.

(** C5: in [ModifyWithForeground] each of the two invocations of [fn] gets
    as [other] the slot opposite the one it mutates: the first mutates the
    background with the pre-call foreground as [other], the second mutates
    the former foreground with the newly published foreground as [other].
    With both slots at 5 and [fn] setting its slot to [other + 1] (returning
    nonzero), the published foreground ends at 6 and the background at 7. *)
Theorem ModifyWithForeground_other_is_opposite_slot :
  (∀ (T Fn : Type) `(!FnFG0 (T := T) Fn) (c : WithFG0 Fn) (d : T * T) i,
     i = 0%Z ∨ i = 1%Z →
     call c d i =
     let '(f, v, r) :=
       applyFG0 (fg0_fn c) (data_get d i) (data_get d (1 - i)) in
     (mkWithFG0 f, v, r)) ∧
  (∀ (T Fn : Type) `(!FnFG0 (T := T) Fn) (fn : Fn) (s : world T)
     fn1 v1 r1 fn2 v2 r2,
     index_ok s →
     let i := _index (dbd s) in
     let d := _data (dbd s) in
     applyFG0 fn (data_get d (1 - i)) (data_get d i) = (fn1, v1, r1) →
     r1 ≠ 0%N →
     applyFG0 fn1 (data_get d i) v1 = (fn2, v2, r2) →
     let s' := (ModifyWithForeground fn s).2 in
     (ModifyWithForeground fn s).1 = (fn2, r2) ∧
     _index (dbd s') = (1 - i)%Z ∧
     writer_steps (new_events s s')
     = [Apply (1 - i); Publish (1 - i); Apply i] ∧
     data_get (_data (dbd s')) (1 - i) = v1 ∧
     data_get (_data (dbd s')) i = v2) ∧
  (∀ (s : world Z) (r : size_t),
     index_ok s → _data (dbd s) = (5%Z, 5%Z) → r ≠ 0%N →
     let s' := (ModifyWithForeground (succ_of_other r) s).2 in
     data_get (_data (dbd s')) (_index (dbd s')) = 6%Z ∧
     data_get (_data (dbd s')) (1 - _index (dbd s')) = 7%Z ∧
     fst (_data (dbd s')) ≠ snd (_data (dbd s'))).
Proof.
  split_and!.
  - intros T Fn ? c d i Hi. by apply WithFG0_call_other.
  - intros T Fn ? fn s fn1 v1 r1 fn2 v2 r2 Hi i d H1 Hr1 H2.
    assert (Hf : (1 - i)%Z = lnot i) by (symmetry; by apply lnot_flip).
    assert (Hf2 : (1 - lnot i)%Z = i).
    { destruct Hi as [Hi | Hi]; unfold i; rewrite Hi; reflexivity. }
    assert (Hf3 : lnot (lnot i) = i) by (by apply lnot_involutive).
    rewrite Hf in *.
    unfold ModifyWithForeground. run. rewrite Modify_eq.
    unfold first_application. fold i d.
    rewrite WithFG0_call_other by apply lnot_range.
    rewrite Hf2. simpl. rewrite H1. simpl.
    apply N.eqb_neq in Hr1. rewrite Hr1, Hf3.
    rewrite WithFG0_call_other by exact Hi. simpl.
    rewrite Hf, data_get_set_lnot, data_get_set_same, H2. simpl.
    erewrite new_events_app by reflexivity.
    split_and!; [done|done| | |].
    + unfold writer_steps. simpl.
      rewrite List.filter_app, writer_steps_drain. simpl.
      rewrite List.filter_app. by destruct (r2 =? r1)%N.
    + by rewrite data_get_lnot_set, data_get_set_same.
    + by rewrite data_get_set_same.
  - intros s r Hi Hd Hr. unfold ModifyWithForeground. run.
    rewrite Modify_eq. unfold first_application.
    rewrite Hd. apply N.eqb_neq in Hr.
    destruct Hi as [Hi | Hi]; rewrite Hi; simpl; rewrite Hr; simpl; done.
Qed.

(** C5 on the adaptor alone and on a container whose slots both hold 5. *)
Lemma ModifyWithForeground_other_is_opposite_slot_witness :
  call (mkWithFG0 (succ_of_other 1%N)) (5%Z, 8%Z) 0 =
  (mkWithFG0 (succ_of_other 1%N), 9%Z, 1%N) ∧
  _data (dbd (ModifyWithForeground (succ_of_other 1%N)
                (Modify (setter 5%Z 1%N) int_dbd).2).2) = (6%Z, 7%Z) ∧
  _index (dbd (ModifyWithForeground (succ_of_other 1%N)
                 (Modify (setter 5%Z 1%N) int_dbd).2).2) = 0%Z.
Proof.
  pose proof ModifyWithForeground_other_is_opposite_slot as (Hc & Hg & He).
  split_and!.
  - rewrite (Hc Z _ _ (mkWithFG0 (succ_of_other 1%N)) (5%Z, 8%Z) 0%Z);
      [reflexivity | left; reflexivity].
  - destruct (Hg Z _ _ (succ_of_other 1%N) (Modify (setter 5%Z 1%N) int_dbd).2
                (succ_of_other 1%N) 6%Z 1%N (succ_of_other 1%N) 7%Z 1%N)
      as (_ & _ & _ & H0 & H1).
    + right. reflexivity.
    + reflexivity.
    + discriminate.
    + reflexivity.
    + destruct (He (Modify (setter 5%Z 1%N) int_dbd).2 1%N) as (_ & _ & _).
      * right. reflexivity.
      * reflexivity.
      * discriminate.
      * reflexivity.
  - reflexivity.
Defined.

(** ** The registry *)

Lemma find_wrapper_spec w ws i :
  match find_wrapper w ws i with
  | Some k => ∃ j, k = (i + j)%nat ∧ ws !! j = Some w
  | None => w ∉ ws
  end.
Proof.
  revert i. induction ws as [|x ws IH]; intros i; simpl.
  - apply not_elem_of_nil.
  - case_decide as Hx.
    + exists 0%nat. subst. split; [lia|done].
    + specialize (IH (S i)). destruct (find_wrapper w ws (S i)) as [k|].
      * destruct IH as (j & -> & Hj). exists (S j). split; [lia|done].
      * rewrite not_elem_of_cons. auto.
Qed.

Lemma swap_pop_perm (ws : list addr) j x :
  ws !! j = Some x → x :: swap_pop j ws ≡ₚ ws.
Proof.
  intros Hj. destruct ws as [|a ws0] using rev_ind; [done|]. clear IHws0.
  unfold swap_pop. rewrite last_snoc.
  destruct (decide (j < length ws0)%nat) as [Hlt | Hge].
  - rewrite insert_app_l by done. rewrite removelast_last.
    rewrite lookup_app_l in Hj by done.
    rewrite insert_take_drop by done.
    rewrite <- (take_drop_middle ws0 j x Hj) at 3.
    solve_Permutation.
  - apply lookup_lt_Some in Hj as Hlen. rewrite length_app in Hlen.
    simpl in Hlen. assert (j = length ws0) as -> by lia.
    rewrite list_lookup_middle in Hj by done. injection Hj as ->.
    rewrite insert_app_r_alt by lia. rewrite Nat.sub_diag. simpl.
    rewrite removelast_last. solve_Permutation.
Qed.

Lemma remove_wrapper_notin w ws : w ∉ ws → remove_wrapper w ws = ws.
Proof.
  intros Hw. unfold remove_wrapper.
  pose proof (find_wrapper_spec w ws 0) as Hf.
  destruct (find_wrapper w ws 0); [|done].
  destruct Hf as (j & _ & Hj). exfalso. apply Hw.
  by eapply list_elem_of_lookup_2.
Qed.

Lemma remove_wrapper_perm w ws :
  w ∈ ws → w :: remove_wrapper w ws ≡ₚ ws.
Proof.
  intros Hw. unfold remove_wrapper.
  pose proof (find_wrapper_spec w ws 0) as Hf.
  destruct (find_wrapper w ws 0) as [k|]; [|done].
  destruct Hf as (j & -> & Hj). by apply swap_pop_perm.
Qed.

Lemma remove_wrapper_NoDup w ws : NoDup ws → NoDup (remove_wrapper w ws).
Proof.
  intros Hnd. destruct (decide (w ∈ ws)) as [Hw | Hw].
  - rewrite <- (remove_wrapper_perm w ws Hw) in Hnd.
    by apply NoDup_cons in Hnd as [_ ?].
  - by rewrite remove_wrapper_notin.
Qed.

Lemma remove_wrapper_gone w ws : NoDup ws → w ∉ remove_wrapper w ws.
Proof.
  intros Hnd. destruct (decide (w ∈ ws)) as [Hw | Hw].
  - rewrite <- (remove_wrapper_perm w ws Hw) in Hnd.
    by apply NoDup_cons in Hnd as [? _].
  - by rewrite remove_wrapper_notin.
Qed.

Lemma remove_wrapper_others w w' ws :
  w' ≠ w → w' ∈ remove_wrapper w ws ↔ w' ∈ ws.
Proof.
  intros Hne. destruct (decide (w ∈ ws)) as [Hw | Hw].
  - rewrite <- (remove_wrapper_perm w ws Hw) at 2.
    rewrite elem_of_cons. split; [by right | by intros [? | ?]].
  - by rewrite remove_wrapper_notin.
Qed.

Section RegistryFacts.

Context {T : Type}.
Implicit Types s : world T.

Lemma RemoveWrapper_eq w s :
  RemoveWrapper (Some w) s =
  (tt, mkWorld (set_wrappers (remove_wrapper w (_wrappers (dbd s))) (dbd s))
         (heap s) (specific s)
         (trace s ++ [Lock _wrappers_mutex; Unlock _wrappers_mutex])).
Proof.
  destruct s as [c h sp tr]. unfold RemoveWrapper, remove_wrapper. run.
  destruct (find_wrapper w (_wrappers c) 0); run.
  - by rewrite <- app_assoc.
  - rewrite <- app_assoc. by destruct c.
Qed.

Lemma delete_Wrapper_eq w s :
  delete_Wrapper (Some w) s =
  match heap s !! w with
  | Some wr =>
      if decide (_control wr ≠ NULL_control) then
        (tt, mkWorld
               (set_wrappers (remove_wrapper w (_wrappers (dbd s))) (dbd s))
               (delete w (heap s)) (specific s)
               (trace s ++ [Lock _wrappers_mutex; Unlock _wrappers_mutex]))
      else (tt, mkWorld (dbd s) (delete w (heap s)) (specific s) (trace s))
  | None => (tt, mkWorld (dbd s) (delete w (heap s)) (specific s) (trace s))
  end.
Proof.
  unfold delete_Wrapper, Wrapper_dtor. step.
  destruct (heap s !! w) as [wr|]; [|done].
  case_decide; [|done]. by rewrite RemoveWrapper_eq.
Qed.

Lemma fresh_not_registered s :
  registry_live s → fresh (dom (heap s)) ∉ _wrappers (dbd s).
Proof.
  intros Hl Hin. apply Hl in Hin.
  pose proof (is_fresh (dom (heap s))) as Hf.
  apply Hf, elem_of_dom. by eexists.
Qed.

Lemma AddWrapper_eq env s :
  AddWrapper env s =
  let w := fresh (dom (heap s)) in
  if new_succeeds env then
    if push_back_throws env then
      (None,
       mkWorld (set_wrappers (remove_wrapper w (_wrappers (dbd s))) (dbd s))
         (delete w (<[w := mkWrapper this_control]> (heap s))) (specific s)
         (trace s ++ [Lock _wrappers_mutex; Unlock _wrappers_mutex;
                      Lock _wrappers_mutex; Unlock _wrappers_mutex]))
    else
      (Some w,
       mkWorld (set_wrappers (_wrappers (dbd s) ++ [w]) (dbd s))
         (<[w := mkWrapper this_control]> (heap s)) (specific s)
         (trace s ++ [Lock _wrappers_mutex; Unlock _wrappers_mutex]))
  else (None, s).
Proof.
  destruct s as [c h sp tr]. unfold AddWrapper. step.
  destruct (new_succeeds env); [|done]. step.
  destruct (push_back_throws env); step.
  - rewrite delete_Wrapper_eq. step. rewrite lookup_insert_eq. simpl.
    by rewrite <- !app_assoc.
  - by rewrite <- !app_assoc.
Qed.

(** When [push_back] throws, the record is destroyed again and nothing of
    the attempt is left but the lock traffic. *)
Lemma AddWrapper_throw_restores env s :
  registry_live s →
  new_succeeds env = true → push_back_throws env = true →
  AddWrapper env s =
  (None, mkWorld (dbd s) (heap s) (specific s)
           (trace s ++ [Lock _wrappers_mutex; Unlock _wrappers_mutex;
                        Lock _wrappers_mutex; Unlock _wrappers_mutex])).
Proof.
  intros Hl Hn Hp. rewrite AddWrapper_eq, Hn, Hp. simpl.
  rewrite remove_wrapper_notin by by apply fresh_not_registered.
  rewrite delete_insert_eq, delete_id.
  - by destruct s as [[] ? ? ?].
  - apply not_elem_of_dom, is_fresh.
Qed.

End RegistryFacts.

(** ** [Read] *)

Section ReadFacts.

Context {T : Type}.
Implicit Types s : world T.

(** [Read] in closed form, path by path. *)
Lemma Read_eq t env ptr s :
  Read t env ptr s =
  if negb (_created_key (dbd s)) then ((-1)%Z, ptr, s)
  else
    match specific s !! t with
    | Some w =>
        (0%Z, ScopedPtr.mk (Some (_index (dbd s))) (Some w),
         mkWorld (dbd s) (heap s) (specific s)
           (trace s ++ [Lock (_mutex w)]))
    | None =>
        let '(w, s1) := AddWrapper env s in
        match w with
        | Some w =>
            if (pthread_setspecific_rc env =? 0)%Z then
              (0%Z, ScopedPtr.mk (Some (_index (dbd s1))) (Some w),
               mkWorld (dbd s1) (heap s1) (<[t := w]> (specific s1))
                 (trace s1 ++ [Lock (_mutex w)]))
            else ((-1)%Z, ptr, s1)
        | None => ((-1)%Z, ptr, s1)
        end
    end.
Proof.
  unfold Read, UnsafeRead, BeginRead. step.
  destruct (negb (_created_key (dbd s))); [done|].
  destruct (specific s !! t) as [w|]; [done|].
  destruct (AddWrapper env s) as [[w|] s1]; [|done].
  by destruct (pthread_setspecific_rc env =? 0)%Z.
Qed.

(** [Read] never touches the slots, the index or the key. *)
Lemma Read_frame t env ptr s :
  let s' := (Read t env ptr s).2 in
  _data (dbd s') = _data (dbd s) ∧ _index (dbd s') = _index (dbd s) ∧
  _created_key (dbd s') = _created_key (dbd s) ∧
  _wrapper_key (dbd s') = _wrapper_key (dbd s).
Proof.
  rewrite Read_eq.
  destruct (negb (_created_key (dbd s))); [done|].
  destruct (specific s !! t) as [w|]; [done|].
  rewrite AddWrapper_eq. simpl.
  destruct (new_succeeds env); [|done].
  destruct (push_back_throws env); [done|].
  by destruct (pthread_setspecific_rc env =? 0)%Z.
Qed.

(** A [Read] that returns 0 leaves the guard pointing at [_data + _index],
    holding the record bound to the calling thread. *)
Lemma Read_ok_guard t env ptr s :
  (Read t env ptr s).1.1 = 0%Z →
  let p := (Read t env ptr s).1.2 in
  let s' := (Read t env ptr s).2 in
  ScopedPtr._data p = Some (_index (dbd s')) ∧
  _index (dbd s') = _index (dbd s) ∧
  _data (dbd s') = _data (dbd s) ∧
  (∃ w, ScopedPtr._w p = Some w ∧ specific s' !! t = Some w) ∧
  (index_ok s →
   deref (_data (dbd s')) (ScopedPtr._data p)
   = Some (data_get (_data (dbd s)) (_index (dbd s)))).
Proof.
  assert (Hderef : ∀ d : T * T, index_ok s →
    deref d (Some (_index (dbd s))) = Some (data_get d (_index (dbd s)))).
  { intros d Hi. unfold deref. by rewrite bool_decide_eq_true_2. }
  rewrite Read_eq.
  destruct (negb (_created_key (dbd s))); [done|].
  destruct (specific s !! t) as [w|] eqn:Hsp; simpl.
  { intros _. split_and!; [done|done|done|by exists w|apply Hderef]. }
  rewrite AddWrapper_eq. simpl.
  destruct (new_succeeds env); [|done].
  destruct (push_back_throws env); [done|].
  destruct (pthread_setspecific_rc env =? 0)%Z; [|done]. simpl.
  intros _. split_and!; [done|done|done| |apply Hderef].
  eexists. split; [done|]. by rewrite lookup_insert_eq.
Qed.

(** C6: [Read] returns -1 only when the key was not created during
    construction or when the calling thread's reader record cannot be set
    up (allocated, inserted into the registry and bound to the thread); in
    every other case it returns 0 and the guard points at the current
    foreground slot [_data + _index] and holds the thread's record. *)
Theorem Read_fails_only_without_key_or_registration t env ptr s :
  let rc := (Read t env ptr s).1.1 in
  let p := (Read t env ptr s).1.2 in
  let s' := (Read t env ptr s).2 in
  (rc = (-1)%Z ∨ rc = 0%Z) ∧
  (rc = (-1)%Z ↔
   _created_key (dbd s) = false ∨ registration_fails t env s) ∧
  (rc = 0%Z →
   ScopedPtr._data p = Some (_index (dbd s')) ∧
   _index (dbd s') = _index (dbd s) ∧
   _data (dbd s') = _data (dbd s) ∧
   (∃ w, ScopedPtr._w p = Some w ∧ specific s' !! t = Some w) ∧
   (index_ok s →
    deref (_data (dbd s')) (ScopedPtr._data p)
    = Some (data_get (_data (dbd s)) (_index (dbd s))))).
Proof.
  intros rc p s'. subst rc p s'.
  split_and!; [| |apply Read_ok_guard].
  - rewrite Read_eq.
    destruct (negb (_created_key (dbd s))); [by left|].
    destruct (specific s !! t); [by right|].
    destruct (AddWrapper env s) as [[w|] s1]; [|by left].
    destruct (pthread_setspecific_rc env =? 0)%Z; [by right|by left].
  - unfold registration_fails. rewrite Read_eq, AddWrapper_eq.
    destruct (_created_key (dbd s)); simpl; [|intuition congruence].
    destruct (specific s !! t); simpl; [intuition congruence|].
    destruct (new_succeeds env); simpl; [|intuition congruence].
    destruct (push_back_throws env); simpl; [intuition congruence|].
    destruct (pthread_setspecific_rc env =? 0)%Z eqn:Hrc; simpl.
    + apply Z.eqb_eq in Hrc. intuition congruence.
    + apply Z.eqb_neq in Hrc. intuition congruence.
Qed.

(** Where a failing [Read] leaves the world as it found it: without a key,
    when the allocation fails, and when [push_back] throws (the record is
    destroyed again; only the registry lock was taken and released). *)
Lemma Read_failure_without_effect t env ptr s :
  registry_live s →
  (Read t env ptr s).1.1 = (-1)%Z →
  ¬ (_created_key (dbd s) = true ∧ specific s !! t = None ∧
     new_succeeds env = true ∧ push_back_throws env = false) →
  let s' := (Read t env ptr s).2 in
  (Read t env ptr s).1.2 = ptr ∧
  dbd s' = dbd s ∧ heap s' = heap s ∧ specific s' = specific s ∧
  diagnostics (new_events s s') = [] ∧
  applications (new_events s s') = [].
Proof.
  intros Hl. rewrite Read_eq.
  destruct (_created_key (dbd s)) eqn:Hk; simpl.
  2:{ intros _ _. unfold new_events. by rewrite drop_all. }
  destruct (specific s !! t) as [w|] eqn:Hsp; simpl; [done|].
  destruct (new_succeeds env) eqn:Hn.
  2:{ rewrite AddWrapper_eq, Hn. simpl. intros _ _.
      unfold new_events. by rewrite drop_all. }
  destruct (push_back_throws env) eqn:Hp.
  2:{ intros _ Hnot. exfalso. by apply Hnot. }
  rewrite AddWrapper_throw_restores by done. simpl. intros _ _.
  by erewrite new_events_app by reflexivity.
Qed.

(** Destroying a guard that is still empty does nothing. *)
Lemma ScopedPtr_dtor_default s : ScopedPtr_dtor ScopedPtr.default s = (tt, s).
Proof. reflexivity. Qed.

(** Where it does not: when [pthread_setspecific] fails, the record that
    [AddWrapper] has just registered stays in the registry and in the
    heap, bound to no thread. *)
Lemma Read_setspecific_failure t env ptr s :
  _created_key (dbd s) = true → specific s !! t = None →
  new_succeeds env = true → push_back_throws env = false →
  pthread_setspecific_rc env ≠ 0%Z →
  let w := fresh (dom (heap s)) in
  let s' := (Read t env ptr s).2 in
  (Read t env ptr s).1 = ((-1)%Z, ptr) ∧
  _wrappers (dbd s') = _wrappers (dbd s) ++ [w] ∧
  heap s' = <[w := mkWrapper this_control]> (heap s) ∧
  specific s' = specific s.
Proof.
  intros Hk Hsp Hn Hp Hrc. rewrite Read_eq, Hk, Hsp. simpl.
  rewrite AddWrapper_eq, Hn, Hp. simpl.
  apply Z.eqb_neq in Hrc. by rewrite Hrc.
Qed.

End ReadFacts.

(** C6 on a first [Read] of a fresh [int] container in which everything
    works. *)
Lemma Read_fails_only_without_key_or_registration_witness :
  (Read 0%nat env_ok ScopedPtr.default int_dbd).1
  = (0%Z, ScopedPtr.mk (Some 0%Z) (Some 1%positive)) ∧
  deref (_data (dbd (Read 0%nat env_ok ScopedPtr.default int_dbd).2))
    (Some 0%Z) = Some 0%Z.
Proof.
  destruct (Read_fails_only_without_key_or_registration
              0%nat env_ok ScopedPtr.default int_dbd) as (_ & _ & Hok).
  destruct Hok as (_ & _ & _ & _ & Hd); [reflexivity|].
  split; [reflexivity|]. apply Hd. left. reflexivity.
Defined.

(** The two failures inside [AddWrapper] leave the container, the heap and
    the per-thread storage of a fresh container as they were. *)
Example Read_AddWrapper_failures :
  let r1 := Read 0%nat env_new_fails ScopedPtr.default int_dbd in
  let r2 := Read 0%nat env_push_back_throws ScopedPtr.default int_dbd in
  r1 = ((-1)%Z, ScopedPtr.default, int_dbd) ∧
  r2.1 = ((-1)%Z, ScopedPtr.default) ∧
  dbd r2.2 = dbd int_dbd ∧ heap r2.2 = heap int_dbd ∧
  specific r2.2 = specific int_dbd ∧
  trace r2.2 = [Lock _wrappers_mutex; Unlock _wrappers_mutex;
                Lock _wrappers_mutex; Unlock _wrappers_mutex].
Proof. vm_compute. split_and!; reflexivity. Qed.

(** C7: evaluated on the code.  On a fresh [int] container, a first [Read]
    in which [pthread_setspecific] returns [ENOMEM] returns -1 and leaves
    the guard empty (destroying it unlocks nothing), but the registry, empty
    before, now holds the record at address 1, live in the heap and bound
    to no thread. *)
Theorem Read_failure_leaves_registration :
  let r := Read 0%nat env_setspecific_ENOMEM ScopedPtr.default int_dbd in
  r.1 = ((-1)%Z, ScopedPtr.default) ∧
  ScopedPtr_dtor r.1.2 r.2 = (tt, r.2) ∧
  _wrappers (dbd int_dbd) = [] ∧
  _wrappers (dbd r.2) = [1%positive] ∧
  heap r.2 !! 1%positive = Some (mkWrapper this_control) ∧
  specific r.2 !! 0%nat = None ∧
  dbd r.2 ≠ dbd int_dbd.
Proof.
  simpl. split_and!; try reflexivity.
  intros Heq. apply (f_equal _wrappers) in Heq. vm_compute in Heq.
  discriminate.
Qed.

(** ** Construction *)

Section CtorFacts.

Context {T : Type} `{!Value T}.

Lemma DoublyBufferedData_ctor_eq (env : ctor_env T) :
  DoublyBufferedData_ctor env =
  let rc := pthread_key_create_rc env in
  mkWorld
    (mkDBD
       (if scalar_like T then (T_default, T_default) else default_init env)
       0 (rc =? 0)%Z (if (rc =? 0)%Z then new_key env else 0%Z) [])
    ∅ ∅
    (if (rc =? 0)%Z then []
     else [Cerr ("Fail to pthread_key_create: " +:+ strerror_r env rc
                 +:+ endl)]).
Proof.
  unfold DoublyBufferedData_ctor, scalar_like. run.
  destruct (pthread_key_create_rc env =? 0)%Z; simpl;
    destruct (is_integral || is_floating_point || is_pointer
              || is_member_function_pointer); reflexivity.
Qed.

(** C9: the constructor sets [_index] to 0 and, when [T] is an integral,
    floating-point, pointer or member-function-pointer type, assigns [T()]
    to both slots, so that a [Read] made before any [Modify] observes
    [T()]. *)
Theorem ctor_initialises_index_and_scalar_slots (env : ctor_env T) :
  let s := DoublyBufferedData_ctor env in
  _index (dbd s) = 0%Z ∧
  (is_integral || is_floating_point || is_pointer
   || is_member_function_pointer = true →
   _data (dbd s) = (T_default, T_default) ∧
   ∀ t renv ptr,
     (Read t renv ptr s).1.1 = 0%Z →
     deref (_data (dbd (Read t renv ptr s).2))
       (ScopedPtr._data (Read t renv ptr s).1.2) = Some T_default).
Proof.
  intros s. subst s. split.
  { by rewrite DoublyBufferedData_ctor_eq. }
  intros Hsc.
  assert (Hd : _data (dbd (DoublyBufferedData_ctor env))
               = (T_default, T_default)).
  { rewrite DoublyBufferedData_ctor_eq. unfold scalar_like. simpl.
    by rewrite Hsc. }
  split; [exact Hd|]. intros t renv ptr Hrc.
  destruct (Read_ok_guard t renv ptr (DoublyBufferedData_ctor env) Hrc)
    as (_ & _ & _ & _ & Hderef).
  rewrite Hderef, Hd.
  - by rewrite DoublyBufferedData_ctor_eq.
  - rewrite DoublyBufferedData_ctor_eq. by left.
Qed.

Lemma DoublyBufferedData_ctor_wf (env : ctor_env T) :
  wf (DoublyBufferedData_ctor env).
Proof.
  rewrite DoublyBufferedData_ctor_eq. split; simpl.
  - by left.
  - apply NoDup_nil_2.
  - intros w Hw. by apply elem_of_nil in Hw.
  - unfold specific_ok. simpl. split; intros *; by rewrite lookup_empty.
Qed.

End CtorFacts.

(** C9 for [T = int]: the first [Read] sees 0. *)
Lemma ctor_initialises_index_and_scalar_slots_witness :
  _data (dbd int_dbd) = (0%Z, 0%Z) ∧
  deref (_data (dbd (Read 0%nat env_ok ScopedPtr.default int_dbd).2))
    (ScopedPtr._data (Read 0%nat env_ok ScopedPtr.default int_dbd).1.2)
  = Some 0%Z.
Proof.
  destruct (ctor_initialises_index_and_scalar_slots int_env) as (_ & Hs).
  destruct Hs as (Hd & Hr); [reflexivity|].
  split; [exact Hd|]. apply Hr. reflexivity.
Defined.

(** ** Thread exit *)

Section ExitFacts.

Context {T : Type}.
Implicit Types s : world T.

Lemma thread_exit_eq t s :
  thread_exit t s =
  match specific s !! t with
  | Some w =>
      delete_Wrapper (Some w)
        (mkWorld (dbd s) (heap s) (delete t (specific s)) (trace s))
  | None => (tt, s)
  end.
Proof. unfold thread_exit. step. by destruct (specific s !! t). Qed.

(** The record bound to the exiting thread's key is destroyed at thread
    exit.  It removes itself from the registry, between a lock and an unlock
    of [_wrappers_mutex], exactly when its [_control] is not [NULL];
    [RemoveWrapper] takes that record out of the registry and leaves every
    other record in it; with [_control] at [NULL] the registry is not
    touched.  This is about the one record the key is bound to: a record
    that a failed [Read] of the same thread left in the registry is bound to
    no key, and thread exit does not reach it. *)
Theorem thread_exit_removes_registration t w wr s :
  NoDup (_wrappers (dbd s)) →
  specific s !! t = Some w → heap s !! w = Some wr →
  let s' := (thread_exit t s).2 in
  (_control wr ≠ NULL_control →
   new_events s s' = [Lock _wrappers_mutex; Unlock _wrappers_mutex] ∧
   _wrappers (dbd s') = _wrappers (dbd (RemoveWrapper (Some w) s).2) ∧
   (w ∉ _wrappers (dbd s')) ∧
   (∀ w', w' ≠ w →
          (w' ∈ _wrappers (dbd s') ↔ w' ∈ _wrappers (dbd s))) ∧
   (w ∈ _wrappers (dbd s) →
    w :: _wrappers (dbd s') ≡ₚ _wrappers (dbd s))) ∧
  (_control wr = NULL_control →
   dbd s' = dbd s ∧ new_events s s' = []) ∧
  (registry_live s → w ∉ _wrappers (dbd s')) ∧
  specific s' !! t = None ∧ heap s' !! w = None.
Proof.
  intros Hnd Hsp Hh s'. subst s'.
  rewrite thread_exit_eq, Hsp, delete_Wrapper_eq, RemoveWrapper_eq.
  cbn [dbd heap specific trace]. rewrite Hh.
  destruct (decide (_control wr ≠ NULL_control)) as [Hc | Hc]; simpl.
  - erewrite new_events_app by reflexivity.
    split_and!; try done.
    + intros _. split_and!; [done|done| | |].
      * by apply remove_wrapper_gone.
      * intros w' Hne. by apply remove_wrapper_others.
      * apply remove_wrapper_perm.
    + intros _. by apply remove_wrapper_gone.
    + apply lookup_delete_eq.
    + apply lookup_delete_eq.
  - split_and!; try done.
    + intros _. split; [done|]. unfold new_events. by rewrite drop_all.
    + intros Hl Hin. apply Hl in Hin. rewrite Hh in Hin.
      injection Hin as ->. by apply Hc.
    + apply lookup_delete_eq.
    + apply lookup_delete_eq.
Qed.

End ExitFacts.

(** With three registered threads: thread 0 exits, its record at address 1
    leaves the registry, the last record takes its place. *)
Lemma thread_exit_removes_registration_witness :
  _wrappers (dbd int_dbd_3readers) = [1; 2; 3]%positive ∧
  _wrappers (dbd (thread_exit 0%nat int_dbd_3readers).2) = [3; 2]%positive ∧
  (1%positive ∉ _wrappers (dbd (thread_exit 0%nat int_dbd_3readers).2)).
Proof.
  destruct (thread_exit_removes_registration 0%nat 1%positive
              (mkWrapper this_control) int_dbd_3readers)
    as (Hrem & _ & _ & _ & _).
  - apply (bool_decide_unpack _). vm_compute. exact I.
  - reflexivity.
  - reflexivity.
  - destruct Hrem as (_ & _ & Hgone & _); [discriminate|].
    split_and!; [reflexivity | reflexivity | exact Hgone].
Defined.

(** C10: evaluated on the code.  Thread 0 makes its first [Read] on a fresh
    container and [pthread_setspecific] returns [ENOMEM]: [Read] returns -1,
    and the [Wrapper] at address 1 that [AddWrapper] has pushed stays in
    [_wrappers], bound to no key.  When thread 0 then exits, no destructor
    runs for it: the exit changes nothing and the record is still in the
    registry.  If the thread first retries, the second [Read] succeeds with
    a second record at address 2; at thread exit that one removes itself
    under [_wrappers_mutex], and the first one is still registered and
    alive.  Both final states are states the program can reach. *)
Theorem thread_exit_leaves_unbound_registration :
  let r1 := Read 0%nat env_setspecific_ENOMEM ScopedPtr.default int_dbd in
  let s1 := r1.2 in
  let s2 := (thread_exit 0%nat s1).2 in
  let r3 := Read 0%nat env_ok ScopedPtr.default s1 in
  let s3 := (ScopedPtr_dtor r3.1.2 r3.2).2 in
  let s4 := (thread_exit 0%nat s3).2 in
  (_wrappers (dbd int_dbd) = [] ∧ specific int_dbd !! 0%nat = None) ∧
  (r1.1.1 = (-1)%Z ∧
   _wrappers (dbd s1) = [1%positive] ∧
   heap s1 !! 1%positive = Some (mkWrapper this_control) ∧
   specific s1 !! 0%nat = None) ∧
  (s2 = s1 ∧ new_events s1 s2 = [] ∧
   _wrappers (dbd s2) = [1%positive] ∧
   heap s2 !! 1%positive = Some (mkWrapper this_control)) ∧
  (r3.1.1 = 0%Z ∧
   _wrappers (dbd s3) = [1%positive; 2%positive] ∧
   specific s3 !! 0%nat = Some 2%positive) ∧
  (new_events s3 s4 = [Lock _wrappers_mutex; Unlock _wrappers_mutex] ∧
   _wrappers (dbd s4) = [1%positive] ∧
   heap s4 !! 1%positive = Some (mkWrapper this_control) ∧
   heap s4 !! 2%positive = None ∧
   specific s4 !! 0%nat = None) ∧
  reachable s2 ∧ reachable s4.
Proof.
  intros r1 s1 s2 r3 s3 s4.
  split_and!; try (vm_compute; reflexivity).
  - subst s2 s1 r1. apply reach_thread_exit, reach_Read. apply reach_ctor.
  - subst s4 s3 r3 s1 r1.
    apply reach_thread_exit, reach_ScopedPtr_dtor, reach_Read, reach_Read.
    apply reach_ctor.
Qed.

(** ** The invariants hold throughout *)

Section Preservation.

Context {T : Type}.
Implicit Types s : world T.

Lemma Modify_wf {Fn : Type} `{!Callable (T := T) Fn} (fn : Fn) s :
  wf s → wf (Modify fn s).2.
Proof.
  intros [Hi Hnd Hl Hsp]. rewrite Modify_eq.
  destruct (first_application fn s) as [[fn1 v1] r1]. simpl.
  destruct (r1 =? 0)%N; simpl.
  - by split.
  - destruct (call fn1 _ _) as [[fn2 v2] r2]. simpl.
    split; try done. apply lnot_range.
Qed.

Lemma Read_wf t env ptr s : wf s → wf (Read t env ptr s).2.
Proof.
  intros [Hi Hnd Hl [Hsp Hinj]]. rewrite Read_eq.
  destruct (negb (_created_key (dbd s))); [by split|].
  destruct (specific s !! t) as [w|] eqn:Ht; [by split|].
  destruct (new_succeeds env) eqn:Hn.
  2:{ rewrite AddWrapper_eq, Hn. by split. }
  destruct (push_back_throws env) eqn:Hp.
  { rewrite AddWrapper_throw_restores by done. by split. }
  rewrite AddWrapper_eq, Hn, Hp. cbn zeta iota beta.
  set (w := fresh (dom (heap s))).
  assert (Hw : w ∉ _wrappers (dbd s)) by by apply fresh_not_registered.
  assert (Hnd' : NoDup (_wrappers (dbd s) ++ [w])).
  { apply NoDup_app. split_and!; [done| |apply NoDup_singleton].
    intros x Hx ->%list_elem_of_singleton. done. }
  assert (Hl' : ∀ x, x ∈ _wrappers (dbd s) ++ [w] →
    <[w := mkWrapper this_control]> (heap s) !! x
    = Some (mkWrapper this_control)).
  { intros x [Hx | ->%list_elem_of_singleton]%elem_of_app.
    - rewrite lookup_insert_ne by (intros ->; done). by apply Hl.
    - apply lookup_insert_eq. }
  destruct (pthread_setspecific_rc env =? 0)%Z; simpl.
  - split; try done. split; simpl.
    + intros t' w'. rewrite lookup_insert. case_decide.
      * intros [= <-]. set_solver.
      * intros Hs. apply Hsp in Hs. set_solver.
    + intros t1 t2 w'. rewrite !lookup_insert.
      repeat case_decide; subst; try done.
      * intros [= <-] Hs. by apply Hsp in Hs.
      * intros Hs [= <-]. by apply Hsp in Hs.
      * apply Hinj.
  - split; try done. split; simpl; [|done].
    intros t' w' Hs. apply Hsp in Hs. set_solver.
Qed.

Lemma thread_exit_wf t s : wf s → wf (thread_exit t s).2.
Proof.
  intros [Hi Hnd Hl [Hsp Hinj]]. rewrite thread_exit_eq.
  destruct (specific s !! t) as [w|] eqn:Ht; [|by split].
  rewrite delete_Wrapper_eq. cbn [dbd heap specific trace].
  rewrite (Hl w) by by eapply Hsp. simpl.
  split; unfold index_ok, registry_live, specific_ok; simpl; try done.
  - by apply remove_wrapper_NoDup.
  - intros x Hx.
    assert (x ≠ w).
    { intros ->. by apply (remove_wrapper_gone w (_wrappers (dbd s))). }
    rewrite lookup_delete_ne by done.
    apply Hl. by eapply remove_wrapper_others.
  - split; simpl.
    + intros t' w' [Hne Hs]%lookup_delete_Some.
      apply remove_wrapper_others; [|by eapply Hsp].
      intros ->. apply Hne. by eapply Hinj.
    + intros t1 t2 w' [_ H1]%lookup_delete_Some [_ H2]%lookup_delete_Some.
      by eapply Hinj.
Qed.

(** [~DoublyBufferedData()] clears every [_control] before it deletes the
    record, so no destructor of a record calls [RemoveWrapper]: the
    registry lock is taken once, by the container's destructor itself. *)
Lemma DoublyBufferedData_dtor_skips_removal s :
  let s' := (DoublyBufferedData_dtor s).2 in
  new_events s s' = [Lock _wrappers_mutex; Unlock _wrappers_mutex] ∧
  _wrappers (dbd s') = [] ∧
  ∀ w, w ∈ _wrappers (dbd s) → heap s' !! w = None.
Proof.
  assert (Hone : ∀ w (s0 : world T),
    detach_and_delete w s0
    = (tt, mkWorld (dbd s0) (delete w (heap s0)) (specific s0) (trace s0))).
  { intros w s0. unfold detach_and_delete. step.
    rewrite delete_Wrapper_eq. step. rewrite lookup_alter_eq, delete_alter_eq.
    by destruct (heap s0 !! w). }
  assert (Hloop : ∀ ws (s0 : world T),
    for_each detach_and_delete ws s0
    = (tt, mkWorld (dbd s0) (foldr delete (heap s0) (reverse ws))
             (specific s0) (trace s0))).
  { induction ws as [|w ws IH]; intros s0.
    - by destruct s0.
    - cbn [for_each]. unfold mbind, M_bind. rewrite Hone, IH. simpl.
      by rewrite reverse_cons, foldr_app. }
  assert (Hdel : ∀ w (ws : list addr) (h : gmap addr Wrapper),
    w ∈ ws → foldr delete h ws !! w = None).
  { intros w. induction ws as [|x ws IH]; intros h;
      [by intros ?%elem_of_nil|].
    intros [-> | Hin]%elem_of_cons; simpl.
    - apply lookup_delete_eq.
    - destruct (decide (x = w)) as [-> | Hne];
        [apply lookup_delete_eq|].
      rewrite lookup_delete_ne by done. by apply IH. }
  unfold DoublyBufferedData_dtor. step.
  destruct (_created_key (dbd s)); step; rewrite Hloop; step;
    (erewrite new_events_app by (by rewrite <- app_assoc));
    (split_and!; [done|done|]);
    intros w Hw; apply Hdel; by apply elem_of_reverse.
Qed.

End Preservation.

Lemma ScopedPtr_dtor_wf {T : Type} ptr (s : world T) :
  wf s → wf (ScopedPtr_dtor ptr s).2.
Proof.
  intros [Hi Hnd Hl Hsp]. unfold ScopedPtr_dtor.
  destruct (ScopedPtr._w ptr); by split.
Qed.

(** X1: in every state that construction, writes, reads, guard releases
    and thread exits can produce, [_index] is 0 or 1, the registry holds no
    record twice, every registered record is live and points back at the
    container, and the record a thread has bound is registered and is
    bound by no other thread. *)
Theorem reachable_wf {T : Type} `{!Value T} (s : world T) :
  reachable s → wf s.
Proof.
  induction 1 as [env | Fn C fn s _ IH | t env ptr s _ IH | ptr s _ IH
                  | t s _ IH].
  - apply DoublyBufferedData_ctor_wf.
  - by apply Modify_wf.
  - by apply Read_wf.
  - by apply ScopedPtr_dtor_wf.
  - by apply thread_exit_wf.
Qed.

(** ** [main.cpp] *)

(** The two reads of [main.cpp] succeed and see what the preceding
    [Modify] wrote; the index has flipped twice. *)
Example main_cpp_reads :
  main_first_read.1.1 = 0%Z ∧
  deref (_data (dbd main_first_read.2)) (ScopedPtr._data main_first_read.1.2)
  = Some (mkDbdTest 1 "test-1") ∧
  main_second_read.1.1 = 0%Z ∧
  deref (_data (dbd main_second_read.2))
    (ScopedPtr._data main_second_read.1.2)
  = Some (mkDbdTest 2 "test-2") ∧
  _index (dbd main_second_read.2) = 0%Z ∧
  _wrappers (dbd main_second_read.2) = [1%positive].
Proof. vm_compute. split_and!; reflexivity. Qed.

(** Both slots at 5, then [ModifyWithForeground] with [bg = other + 1]:
    readers see 6, the background holds 7. *)
Example modify_with_foreground_composes :
  let s1 := (Modify (setter 5%Z 1%N) int_dbd).2 in
  let s2 := (ModifyWithForeground (succ_of_other 1%N) s1).2 in
  _data (dbd s1) = (5%Z, 5%Z) ∧ _index (dbd s1) = 1%Z ∧
  _data (dbd s2) = (6%Z, 7%Z) ∧ _index (dbd s2) = 0%Z ∧
  deref (_data (dbd s2))
    (ScopedPtr._data (Read 0%nat env_ok ScopedPtr.default s2).1.2)
  = Some 6%Z.
Proof. vm_compute. split_and!; reflexivity. Qed.

(** * Further properties of the code *)

(** ** Mutex discipline and the order of a write *)

(** Membership in a list that is written out. *)
Ltac inv_elem H :=
  repeat match type of H with
         | _ ∈ _ :: _ => apply elem_of_cons in H as [H | H]
         | _ ∈ [] => by apply elem_of_nil in H
         end.

Ltac notin_held :=
  intros; rewrite ?not_elem_of_cons; repeat split; try done;
  apply not_elem_of_nil.

Lemma lock_run_app held evs1 evs2 :
  lock_run held (evs1 ++ evs2)
  = lock_run held evs1 ≫= λ h, lock_run h evs2.
Proof.
  revert held. induction evs1 as [|e evs1 IH]; intros held; [done|].
  destruct e; simpl; try apply IH.
  - case_decide; [done|]. apply IH.
  - destruct held as [|m' held]; [done|]. case_decide; [apply IH|done].
Qed.

Lemma lock_run_Lock held m evs :
  m ∉ held → lock_run held (Lock m :: evs) = lock_run (m :: held) evs.
Proof. intros Hm. simpl. by case_decide. Qed.

Lemma lock_run_Unlock held m evs :
  lock_run (m :: held) (Unlock m :: evs) = lock_run held evs.
Proof. simpl. by case_decide. Qed.

Ltac locks :=
  repeat first [rewrite lock_run_Unlock
               | rewrite lock_run_Lock by notin_held].

Lemma lock_run_drain held ws :
  (∀ w, w ∈ ws → _mutex w ∉ held) →
  lock_run held (drain ws) = Some held.
Proof.
  induction ws as [|w ws IH]; intros Hw; [done|].
  change (drain (w :: ws))
    with (Lock (_mutex w) :: Unlock (_mutex w) :: drain ws).
  rewrite lock_run_Lock by (apply Hw; by left).
  rewrite lock_run_Unlock.
  apply IH. intros w' Hw'. apply Hw. by right.
Qed.

Lemma foreground_untouched_drain fg ws evs :
  foreground_untouched fg (drain ws ++ evs) = foreground_untouched fg evs.
Proof. induction ws as [|w ws IH]; [done|]. exact IH. Qed.

Lemma lnot_neq x : (lnot x =? x)%Z = false.
Proof.
  unfold lnot. destruct (x =? 0)%Z eqn:E.
  - apply Z.eqb_eq in E. by subst.
  - rewrite Z.eqb_sym. exact E.
Qed.

Lemma elem_of_drain_Lock w ws : Lock (_mutex w) ∈ drain ws ↔ w ∈ ws.
Proof.
  unfold drain. rewrite list_elem_of_bind. split.
  - intros (w' & Hin & Hw'). inv_elem Hin; [|done]. by injection Hin as ->.
  - intros Hw. exists w. split; [by left|done].
Qed.

Lemma elem_of_drain_Unlock w ws : Unlock (_mutex w) ∈ drain ws ↔ w ∈ ws.
Proof.
  unfold drain. rewrite list_elem_of_bind. split.
  - intros (w' & Hin & Hw'). inv_elem Hin; [done|]. by injection Hin as ->.
  - intros Hw. exists w. split; [|done]. right. by left.
Qed.

Lemma drain_cons w ws :
  drain (w :: ws) = Lock (_mutex w) :: Unlock (_mutex w) :: drain ws.
Proof. reflexivity. Qed.

Lemma drain_app ws1 ws2 : drain (ws1 ++ ws2) = drain ws1 ++ drain ws2.
Proof.
  induction ws1 as [|w ws1 IH]; [done|].
  rewrite <- app_comm_cons, !drain_cons, IH. done.
Qed.

Lemma drain_length ws : length (drain ws) = 2 * length ws.
Proof.
  induction ws as [|w ws IH]; [done|].
  rewrite drain_cons. cbn [length]. lia.
Qed.

Lemma drain_pair w ws :
  w ∈ ws →
  ∃ evs1 evs2,
    drain ws = evs1 ++ Lock (_mutex w) :: Unlock (_mutex w) :: evs2.
Proof.
  intros (ws1 & ws2 & ->)%list_elem_of_split.
  exists (drain ws1), (drain ws2). by rewrite drain_app, drain_cons.
Qed.

Lemma drain_only_readers e ws :
  e ∈ drain ws →
  ∃ w, w ∈ ws ∧ (e = Lock (_mutex w) ∨ e = Unlock (_mutex w)).
Proof.
  unfold drain. rewrite list_elem_of_bind. intros (w & He & Hw).
  exists w. split; [done|]. inv_elem He; auto.
Qed.

Lemma lock_events_drain ws : lock_events (drain ws) = drain ws.
Proof.
  induction ws as [|w ws IH]; [done|].
  rewrite drain_cons. unfold lock_events in *. cbn [List.filter is_lock_event].
  by rewrite IH.
Qed.

(** A drain started by a thread that holds the mutex of a registered
    record locks that mutex a second time. *)
Lemma lock_run_drain_held held ws evs w :
  w ∈ ws → _mutex w ∈ held → lock_run held (drain ws ++ evs) = None.
Proof.
  intros Hw Hheld. induction ws as [|w' ws IH]; [inv_elem Hw|].
  rewrite drain_cons. cbn [app].
  destruct (decide (_mutex w' ∈ held)) as [Hin | Hn].
  - cbn [lock_run]. by rewrite decide_True.
  - rewrite lock_run_Lock by done. rewrite lock_run_Unlock.
    apply IH. apply elem_of_cons in Hw as [-> | Hw]; done.
Qed.

Section ModifyProtocol.

Context {T Fn : Type} `{!Callable (T := T) Fn}.
Implicit Types (fn : Fn) (s : world T).

(** What one [Modify] adds to the trace, on its two paths. *)
Lemma Modify_new_events fn s :
  new_events s (Modify fn s).2 =
  let bg := lnot (_index (dbd s)) in
  if ((first_application fn s).2 =? 0)%N
  then [Lock _modify_mutex; Apply bg; Unlock _modify_mutex]
  else [Lock _modify_mutex; Apply bg; Publish bg; Lock _wrappers_mutex]
       ++ drain (_wrappers (dbd s))
       ++ [Unlock _wrappers_mutex; Apply (lnot bg)]
       ++ (if ((second_application fn s).2 =? (first_application fn s).2)%N
           then [Cerr ("Modify index=" +:+ show_int bg +:+ endl)]
           else [])
       ++ [Unlock _modify_mutex].
Proof.
  unfold second_application. rewrite Modify_eq.
  destruct (first_application fn s) as [[fn1 v1] r1]. simpl.
  destruct (r1 =? 0)%N; simpl.
  { by erewrite new_events_app by reflexivity. }
  destruct (call fn1 _ _) as [[fn2 v2] r2]. simpl.
  by erewrite new_events_app by reflexivity.
Qed.

(** X5: the mutexes of one [Modify], in a run where every lock succeeds.
    The mutex operations are, in this order: lock [_modify_mutex]; when
    the first application of [fn] returned nonzero, lock [_wrappers_mutex],
    then for each record of the registry a lock and an unlock of its mutex,
    then unlock [_wrappers_mutex]; unlock [_modify_mutex].  The lock of
    [_modify_mutex] is the first event of the call and its unlock the last.
    Called by a thread that holds none of these mutexes, [Modify] never
    locks a mutex that is held, releases in the reverse order of taking,
    and leaves the thread holding what it held.  Called by a thread that
    holds the mutex of a registered record, as a thread with a live read
    guard does, the drain locks that mutex a second time. *)
Theorem Modify_lock_discipline fn s :
  let evs := new_events s (Modify fn s).2 in
  let ws := _wrappers (dbd s) in
  let r1 := (first_application fn s).2 in
  lock_events evs
  = (if (r1 =? 0)%N then [Lock _modify_mutex; Unlock _modify_mutex]
     else [Lock _modify_mutex; Lock _wrappers_mutex]
          ++ drain ws
          ++ [Unlock _wrappers_mutex; Unlock _modify_mutex]) ∧
  head evs = Some (Lock _modify_mutex) ∧
  last evs = Some (Unlock _modify_mutex) ∧
  (∀ held,
     _modify_mutex ∉ held → _wrappers_mutex ∉ held →
     (∀ w, w ∈ ws → _mutex w ∉ held) →
     lock_run held evs = Some held) ∧
  (∀ w, r1 ≠ 0%N → w ∈ ws → lock_run [_mutex w] evs = None).
Proof.
  intros evs ws r1. subst evs r1. rewrite Modify_new_events. cbv zeta.
  fold ws. destruct ((first_application fn s).2 =? 0)%N eqn:E.
  { split_and!; try reflexivity.
    - intros held Hm _ _. rewrite lock_run_Lock by done.
      cbn [lock_run]. by rewrite decide_True.
    - intros w Hr. apply N.eqb_neq in Hr. congruence. }
  set (diag := if (_ =? _)%N then _ else _).
  assert (Hdiag : ∀ held evs',
            lock_run held (diag ++ evs') = lock_run held evs').
  { intros held evs'. subst diag.
    by destruct ((second_application fn s).2 =? _)%N. }
  split_and!.
  - unfold lock_events. rewrite !List.filter_app.
    change (List.filter is_lock_event (drain ws))
      with (lock_events (drain ws)).
    rewrite lock_events_drain. subst diag.
    by destruct ((second_application fn s).2 =? _)%N.
  - reflexivity.
  - rewrite !app_assoc. apply last_snoc.
  - intros held Hm Hw Hr. cbn [app].
    rewrite lock_run_Lock by done. cbn [lock_run].
    rewrite decide_False by (rewrite not_elem_of_cons; by split).
    rewrite lock_run_app, lock_run_drain.
    + cbn [mbind option_bind app]. rewrite lock_run_Unlock. cbn [lock_run].
      rewrite Hdiag. apply lock_run_Unlock.
    + intros w Hin. rewrite !not_elem_of_cons.
      split_and!; [done | done | by apply Hr].
  - intros w _ Hin. cbn [app].
    rewrite lock_run_Lock by notin_held. cbn [lock_run].
    rewrite decide_False by notin_held.
    apply lock_run_drain_held with w; [done|].
    apply elem_of_cons. right. apply elem_of_cons. right. by left.
Qed.

(** X3: [Modify] never applies [fn] to the slot that is foreground at that
    moment: the first application is to the background, and the second
    comes after the publication and is to the slot that has just become
    background. *)
Theorem Modify_never_writes_foreground fn s :
  foreground_untouched (_index (dbd s)) (new_events s (Modify fn s).2)
  = true.
Proof.
  rewrite Modify_eq.
  destruct (first_application fn s) as [[fn1 v1] r1]. simpl.
  destruct (r1 =? 0)%N; simpl.
  { erewrite new_events_app by reflexivity. simpl. by rewrite lnot_neq. }
  destruct (call fn1 _ _) as [[fn2 v2] r2]. simpl.
  erewrite new_events_app by reflexivity.
  cbn [app foreground_untouched]. rewrite lnot_neq.
  rewrite foreground_untouched_drain. cbn [app foreground_untouched].
  rewrite lnot_neq. by destruct (r2 =? r1)%N.
Qed.

(** X4: a [Modify] whose first application returns nonzero waits for every
    registered reader between the publication and the second application,
    in a run where every lock succeeds.  The events of the call are exactly:
    lock [_modify_mutex], [fn] on the background slot, the store of the
    index, lock [_wrappers_mutex], the drain, unlock [_wrappers_mutex], [fn]
    on the former foreground slot, at most lines on [std::cerr], unlock
    [_modify_mutex].  The drain is, for each record of the registry in
    registry order, a lock of its mutex followed at once by the unlock: it
    holds no other event, and every registered record has its pair. *)
Theorem Modify_drains_registered_readers fn s :
  (first_application fn s).2 ≠ 0%N →
  let bg := lnot (_index (dbd s)) in
  let ws := _wrappers (dbd s) in
  ∃ diag,
    new_events s (Modify fn s).2
    = [Lock _modify_mutex; Apply bg; Publish bg; Lock _wrappers_mutex]
      ++ drain ws
      ++ [Unlock _wrappers_mutex; Apply (lnot bg)]
      ++ diag ++ [Unlock _modify_mutex] ∧
    diagnostics diag = diag ∧
    (∀ w, w ∈ ws →
       ∃ evs1 evs2,
         drain ws = evs1 ++ Lock (_mutex w) :: Unlock (_mutex w) :: evs2) ∧
    (∀ e, e ∈ drain ws →
       ∃ w, w ∈ ws ∧ (e = Lock (_mutex w) ∨ e = Unlock (_mutex w))) ∧
    length (drain ws) = 2 * length ws.
Proof.
  intros Hr1 bg ws. rewrite Modify_new_events. cbv zeta. fold bg ws.
  apply N.eqb_neq in Hr1. rewrite Hr1.
  eexists. split_and!.
  - reflexivity.
  - by destruct ((second_application fn s).2 =? _)%N.
  - intros w. apply drain_pair.
  - intros e. apply drain_only_readers.
  - apply drain_length.
Qed.

Lemma Modify_readers_frame fn s :
  let s' := (Modify fn s).2 in
  _wrappers (dbd s') = _wrappers (dbd s) ∧
  _created_key (dbd s') = _created_key (dbd s) ∧
  _wrapper_key (dbd s') = _wrapper_key (dbd s) ∧
  heap s' = heap s ∧ specific s' = specific s.
Proof.
  simpl. rewrite Modify_eq.
  destruct (first_application fn s) as [[fn1 v1] r1]. simpl.
  destruct (r1 =? 0)%N; simpl; [done|].
  by destruct (call fn1 _ _) as [[fn2 v2] r2].
Qed.

(** X6: [Modify] leaves the registry, the key, the heap of records and the
    per-thread storage as they were, whatever [fn] returns. *)
Theorem Modify_leaves_readers_alone fn s :
  let s' := (Modify fn s).2 in
  _wrappers (dbd s') = _wrappers (dbd s) ∧
  _created_key (dbd s') = _created_key (dbd s) ∧
  _wrapper_key (dbd s') = _wrapper_key (dbd s) ∧
  heap s' = heap s ∧ specific s' = specific s.
Proof.
  simpl. rewrite Modify_eq.
  destruct (first_application fn s) as [[fn1 v1] r1]. simpl.
  destruct (r1 =? 0)%N; simpl; [done|].
  by destruct (call fn1 _ _) as [[fn2 v2] r2].
Qed.

(** The slot that is foreground when [Modify] returns holds what the first
    application wrote if that returned nonzero, and what it held before
    otherwise. *)
Lemma Modify_foreground_value fn s :
  let s' := (Modify fn s).2 in
  data_get (_data (dbd s')) (_index (dbd s'))
  = let '(_, v1, r1) := first_application fn s in
    if (r1 =? 0)%N then data_get (_data (dbd s)) (_index (dbd s)) else v1.
Proof.
  simpl. rewrite Modify_eq.
  destruct (first_application fn s) as [[fn1 v1] r1]. simpl.
  destruct (r1 =? 0)%N; simpl.
  - apply data_get_set_lnot.
  - destruct (call fn1 _ _) as [[fn2 v2] r2]. simpl.
    by rewrite data_get_set_lnot, data_get_set_same.
Qed.

Lemma Modify_index_ok fn s : index_ok s → index_ok (Modify fn s).2.
Proof.
  intros Hi. unfold index_ok. rewrite Modify_eq.
  destruct (first_application fn s) as [[fn1 v1] r1]. simpl.
  destruct (r1 =? 0)%N; simpl; [done|].
  destruct (call fn1 _ _) as [[fn2 v2] r2]. simpl. apply lnot_range.
Qed.

(** X7: a [Read] that succeeds after [Modify] has returned observes what
    the first application of [fn] wrote, or, when that application
    returned 0, what the foreground slot held before the call. *)
Theorem Read_after_Modify_sees_published_value fn s t env ptr :
  index_ok s →
  let s' := (Modify fn s).2 in
  (Read t env ptr s').1.1 = 0%Z →
  deref (_data (dbd (Read t env ptr s').2))
    (ScopedPtr._data (Read t env ptr s').1.2)
  = Some (let '(_, v1, r1) := first_application fn s in
          if (r1 =? 0)%N then data_get (_data (dbd s)) (_index (dbd s))
          else v1).
Proof.
  intros Hi s' Hrc.
  destruct (Read_ok_guard t env ptr s' Hrc) as (_ & _ & _ & _ & Hd).
  rewrite Hd by by apply Modify_index_ok.
  f_equal. apply Modify_foreground_value.
Qed.

End ModifyProtocol.

(** The drain on a container with three registered readers. *)
Lemma Modify_drains_registered_readers_witness :
  ∃ diag,
    new_events int_dbd_3readers (Modify (setter 5%Z 1%N) int_dbd_3readers).2
    = [Lock _modify_mutex; Apply 1; Publish 1; Lock _wrappers_mutex;
       Lock (_mutex 1%positive); Unlock (_mutex 1%positive);
       Lock (_mutex 2%positive); Unlock (_mutex 2%positive);
       Lock (_mutex 3%positive); Unlock (_mutex 3%positive);
       Unlock _wrappers_mutex; Apply 0]
      ++ diag ++ [Unlock _modify_mutex] ∧
    diagnostics diag = diag.
Proof.
  destruct (Modify_drains_registered_readers (setter 5%Z 1%N)
              int_dbd_3readers)
    as (diag & He & Hd & _).
  - vm_compute. discriminate.
  - exists diag. split; [exact He | exact Hd].
Defined.

(** The mutexes of a full write on a container with three registered
    readers: taken by a thread that holds nothing, and by thread 0 holding
    its read guard. *)
Lemma Modify_lock_discipline_witness :
  lock_run []
    (new_events int_dbd_3readers (Modify (setter 5%Z 1%N) int_dbd_3readers).2)
  = Some [] ∧
  lock_run [_mutex 1%positive]
    (new_events int_dbd_3readers (Modify (setter 5%Z 1%N) int_dbd_3readers).2)
  = None.
Proof.
  destruct (Modify_lock_discipline (setter 5%Z 1%N) int_dbd_3readers)
    as (_ & _ & _ & Hfree & Hheld).
  split.
  - apply Hfree; try apply not_elem_of_nil.
    intros w _. apply not_elem_of_nil.
  - apply Hheld.
    + vm_compute. discriminate.
    + apply (bool_decide_unpack _). vm_compute. exact I.
Defined.

(** A read after [main.cpp]'s first write. *)
Lemma Read_after_Modify_sees_published_value_witness :
  deref
    (_data (dbd (Read 0%nat env_ok ScopedPtr.default
                   (Modify (mkClosure2 AddDbd 1%Z "test-1") main_dbd).2).2))
    (ScopedPtr._data
       (Read 0%nat env_ok ScopedPtr.default
          (Modify (mkClosure2 AddDbd 1%Z "test-1") main_dbd).2).1.2)
  = Some (mkDbdTest 1 "test-1").
Proof.
  etrans.
  - apply (Read_after_Modify_sees_published_value
             (mkClosure2 AddDbd 1%Z "test-1") main_dbd 0%nat env_ok
             ScopedPtr.default).
    + left. reflexivity.
    + reflexivity.
  - reflexivity.
Defined.

(** ** The registry, a record at a time *)

Lemma find_wrapper_snoc w ws i :
  w ∉ ws → find_wrapper w (ws ++ [w]) i = Some (i + length ws)%nat.
Proof.
  revert i. induction ws as [|x ws IH]; intros i Hw; simpl.
  - rewrite decide_True by done. f_equal. lia.
  - apply not_elem_of_cons in Hw as [Hne Hw].
    rewrite decide_False by done. rewrite IH by done. f_equal. lia.
Qed.

Lemma swap_pop_snoc (ws : list addr) w :
  swap_pop (length ws) (ws ++ [w]) = ws.
Proof.
  unfold swap_pop. rewrite last_snoc.
  rewrite insert_app_r_alt by lia. rewrite Nat.sub_diag. simpl.
  apply removelast_last.
Qed.

Lemma remove_wrapper_snoc w ws :
  w ∉ ws → remove_wrapper w (ws ++ [w]) = ws.
Proof.
  intros Hw. unfold remove_wrapper. rewrite find_wrapper_snoc by done.
  apply swap_pop_snoc.
Qed.

Lemma remove_wrapper_length w ws :
  w ∈ ws → length (remove_wrapper w ws) = pred (length ws).
Proof.
  intros Hw. pose proof (remove_wrapper_perm w ws Hw) as Hp.
  apply Permutation_length in Hp. simpl in Hp. lia.
Qed.

Section RegistryOperations.

Context {T : Type}.
Implicit Types s : world T.

(** X12: [AddWrapper] registers all or nothing.  When it returns a record,
    the record is new (not live and not registered before), it is appended
    to the registry and it points back at the container; when it returns
    [NULL], after a failed allocation or a [push_back] that threw, the
    container and the heap are as before.  Either way the per-thread
    storage, the slots and the index are untouched and no mutex is left
    held. *)
Theorem AddWrapper_all_or_nothing env s :
  registry_live s →
  let s' := (AddWrapper env s).2 in
  match (AddWrapper env s).1 with
  | Some w =>
      heap s !! w = None ∧ (w ∉ _wrappers (dbd s)) ∧
      _wrappers (dbd s') = _wrappers (dbd s) ++ [w] ∧
      heap s' = <[w := mkWrapper this_control]> (heap s)
  | None => dbd s' = dbd s ∧ heap s' = heap s
  end ∧
  specific s' = specific s ∧
  _data (dbd s') = _data (dbd s) ∧ _index (dbd s') = _index (dbd s) ∧
  lock_run [] (new_events s s') = Some [].
Proof.
  intros Hl s'. subst s'.
  destruct (new_succeeds env) eqn:Hn.
  2:{ rewrite AddWrapper_eq, Hn. simpl. unfold new_events.
      by rewrite drop_all. }
  destruct (push_back_throws env) eqn:Hp.
  { rewrite AddWrapper_throw_restores by done. simpl.
    by erewrite new_events_app by reflexivity. }
  rewrite AddWrapper_eq, Hn, Hp. simpl.
  erewrite new_events_app by reflexivity.
  split_and!; try done.
  - apply not_elem_of_dom, is_fresh.
  - by apply fresh_not_registered.
Qed.

(** X13: [RemoveWrapper(NULL)] returns at once, without taking the registry
    lock.  For a record that is not registered the container is unchanged;
    for a registered one the registry shrinks by exactly one entry.  The
    heap, the per-thread storage, the slots and the index are never
    touched, and the registry lock is released again. *)
Theorem RemoveWrapper_edges s :
  RemoveWrapper None s = (tt, s) ∧
  ∀ w,
    let s' := (RemoveWrapper (Some w) s).2 in
    (w ∉ _wrappers (dbd s) → dbd s' = dbd s) ∧
    (w ∈ _wrappers (dbd s) →
     length (_wrappers (dbd s')) = pred (length (_wrappers (dbd s)))) ∧
    heap s' = heap s ∧ specific s' = specific s ∧
    _data (dbd s') = _data (dbd s) ∧ _index (dbd s') = _index (dbd s) ∧
    new_events s s' = [Lock _wrappers_mutex; Unlock _wrappers_mutex].
Proof.
  split; [done|]. intros w s'. subst s'. rewrite RemoveWrapper_eq. simpl.
  erewrite new_events_app by reflexivity.
  split_and!; try done.
  - intros Hw. rewrite remove_wrapper_notin by done. by destruct (dbd s).
  - apply remove_wrapper_length.
Qed.

Lemma thread_exit_frame t s :
  let s' := (thread_exit t s).2 in
  _data (dbd s') = _data (dbd s) ∧ _index (dbd s') = _index (dbd s) ∧
  _created_key (dbd s') = _created_key (dbd s) ∧
  _wrapper_key (dbd s') = _wrapper_key (dbd s).
Proof.
  simpl. rewrite thread_exit_eq.
  destruct (specific s !! t) as [w|]; [|done].
  rewrite delete_Wrapper_eq. cbn [dbd heap specific trace].
  destruct (heap s !! w) as [wr|]; [|done]. by case_decide.
Qed.

(** X14: a thread's exit handler runs once.  After [thread_exit t] the
    thread has no bound record, so a second run changes nothing; the
    bindings of the other threads, the slots, the index and the key are as
    before. *)
Theorem thread_exit_idempotent t s :
  let s' := (thread_exit t s).2 in
  thread_exit t s' = (tt, s') ∧
  specific s' = delete t (specific s) ∧
  (∀ t', t' ≠ t → specific s' !! t' = specific s !! t') ∧
  _data (dbd s') = _data (dbd s) ∧ _index (dbd s') = _index (dbd s) ∧
  _created_key (dbd s') = _created_key (dbd s).
Proof.
  intros s'.
  assert (Hsp : specific s' = delete t (specific s)).
  { subst s'. rewrite thread_exit_eq.
    destruct (specific s !! t) as [w|] eqn:Ht.
    - rewrite delete_Wrapper_eq. cbn [dbd heap specific trace].
      destruct (heap s !! w) as [wr|]; [|done]. by case_decide.
    - simpl. by rewrite delete_id. }
  destruct (thread_exit_frame t s) as (Hd & Hi & Hk & _).
  split_and!; try done.
  - rewrite thread_exit_eq, Hsp, lookup_delete_eq. done.
  - intros t' Hne. rewrite Hsp. by apply lookup_delete_ne.
Qed.

End RegistryOperations.

Lemma registry_live_int_dbd : registry_live int_dbd.
Proof. intros w Hw. vm_compute in Hw. by apply elem_of_nil in Hw. Qed.

(** A successful and a throwing [AddWrapper] on a fresh container. *)
Lemma AddWrapper_all_or_nothing_witness :
  _wrappers (dbd (AddWrapper env_ok int_dbd).2) = [1%positive] ∧
  dbd (AddWrapper env_push_back_throws int_dbd).2 = dbd int_dbd.
Proof.
  split.
  - destruct (AddWrapper_all_or_nothing env_ok int_dbd
                registry_live_int_dbd) as (Hm & _).
    change (AddWrapper env_ok int_dbd).1 with (Some 1%positive) in Hm.
    destruct Hm as (_ & _ & Hw & _). exact Hw.
  - destruct (AddWrapper_all_or_nothing env_push_back_throws int_dbd
                registry_live_int_dbd) as (Hm & _).
    change (AddWrapper env_push_back_throws int_dbd).1
      with (@None addr) in Hm.
    destruct Hm as (Hd & _). exact Hd.
Defined.

(** [RemoveWrapper] of the middle record of three, and of a record that
    is not there. *)
Lemma RemoveWrapper_edges_witness :
  length (_wrappers (dbd (RemoveWrapper (Some 2%positive)
                            int_dbd_3readers).2)) = 2%nat ∧
  dbd (RemoveWrapper (Some 9%positive) int_dbd_3readers).2
  = dbd int_dbd_3readers.
Proof.
  destruct (RemoveWrapper_edges int_dbd_3readers) as (_ & Hr).
  split.
  - destruct (Hr 2%positive) as (_ & Hl & _). apply Hl.
    apply (bool_decide_unpack _). vm_compute. exact I.
  - destruct (Hr 9%positive) as (Hn & _). apply Hn.
    apply (bool_decide_unpack _). vm_compute. exact I.
Defined.

(** Thread 0 exits twice; thread 1 keeps its record. *)
Lemma thread_exit_idempotent_witness :
  thread_exit 0%nat (thread_exit 0%nat int_dbd_3readers).2
  = (tt, (thread_exit 0%nat int_dbd_3readers).2) ∧
  specific (thread_exit 0%nat int_dbd_3readers).2 !! 1%nat
  = Some 2%positive.
Proof.
  destruct (thread_exit_idempotent 0%nat int_dbd_3readers)
    as (Hi & _ & Ho & _).
  split; [exact Hi|]. rewrite Ho by discriminate. reflexivity.
Defined.

(** ** Reads, one thread at a time *)

Section ReadOperations.

Context {T : Type}.
Implicit Types s : world T.

Lemma Read_ok_created_key t env ptr s :
  (Read t env ptr s).1.1 = 0%Z → _created_key (dbd s) = true.
Proof.
  rewrite Read_eq. by destruct (_created_key (dbd s)).
Qed.

Lemma new_events_refl s : new_events s s = [].
Proof. unfold new_events. by rewrite drop_all. Qed.

Lemma new_events_mk s c h sp evs :
  new_events s (mkWorld c h sp (trace s ++ evs)) = evs.
Proof. by apply new_events_app. Qed.

(** X15: a [Read] on an empty guard leaves exactly one mutex held when it
    succeeds, the mutex of the record the guard holds, and none when it
    fails; destroying the guard releases that mutex, so that after
    [Read] and [~ScopedPtr] no mutex is held on any path.  The guard holds
    a record exactly when [Read] returned 0. *)
Theorem Read_guard_lock_discipline t env s :
  let r := Read t env ScopedPtr.default s in
  lock_run [] (new_events s r.2)
  = Some (match ScopedPtr._w r.1.2 with
          | Some w => [_mutex w]
          | None => []
          end) ∧
  lock_run [] (new_events s (ScopedPtr_dtor r.1.2 r.2).2) = Some [] ∧
  (r.1.1 = 0%Z ↔ is_Some (ScopedPtr._w r.1.2)).
Proof.
  intros r. subst r. rewrite Read_eq.
  destruct (negb (_created_key (dbd s))).
  { simpl. rewrite new_events_refl.
    split_and!; [done|done|]. split; [done|by intros [? ?]]. }
  destruct (specific s !! t) as [w|].
  { simpl. step. rewrite <- ?app_assoc, !new_events_mk. cbn [app]. locks.
    split_and!; [done|done|]. split; [by eexists|done]. }
  rewrite AddWrapper_eq. simpl.
  destruct (new_succeeds env).
  2:{ simpl. rewrite new_events_refl.
      split_and!; [done|done|]. split; [done|by intros [? ?]]. }
  destruct (push_back_throws env).
  { simpl. rewrite !new_events_mk.
    split_and!; [done|done|]. split; [done|by intros [? ?]]. }
  destruct (pthread_setspecific_rc env =? 0)%Z; simpl.
  - step. rewrite <- ?app_assoc, !new_events_mk. cbn [app]. locks.
    split_and!; [done|done|]. split; [by eexists|done].
  - rewrite !new_events_mk.
    split_and!; [done|done|]. split; [done|by intros [? ?]].
Qed.

(** X16: a thread is registered once.  After a [Read] of thread [t] that
    succeeded, a later [Read] of [t] succeeds whatever the platform would
    answer, hands out the same record, and neither allocates nor registers
    anything. *)
Theorem Read_registers_a_thread_once t env1 env2 ptr1 ptr2 s :
  (Read t env1 ptr1 s).1.1 = 0%Z →
  let r1 := Read t env1 ptr1 s in
  let r2 := Read t env2 ptr2 (ScopedPtr_dtor r1.1.2 r1.2).2 in
  r2.1.1 = 0%Z ∧ ScopedPtr._w r2.1.2 = ScopedPtr._w r1.1.2 ∧
  dbd r2.2 = dbd r1.2 ∧ heap r2.2 = heap r1.2 ∧
  specific r2.2 = specific r1.2.
Proof.
  intros Hrc r1 r2. subst r1 r2.
  destruct (Read_ok_guard t env1 ptr1 s Hrc) as (_ & _ & _ & Hw & _).
  destruct Hw as (w & Hw & Hsp).
  pose proof (Read_ok_created_key t env1 ptr1 s Hrc) as Hk.
  destruct (Read_frame t env1 ptr1 s) as (_ & _ & Hk' & _).
  rewrite Hk in Hk'.
  rewrite (Read_eq t env2). unfold ScopedPtr_dtor. rewrite Hw. simpl.
  by rewrite Hk', Hsp.
Qed.

(** X17: registration is undone by the thread's exit.  A thread without a
    record makes a first [Read] in which everything works, releases the
    guard and exits: the container, the heap and the per-thread storage
    are what they were before the [Read], and no mutex is left held. *)
Theorem registration_round_trip t env s :
  registry_live s →
  _created_key (dbd s) = true → specific s !! t = None →
  new_succeeds env = true → push_back_throws env = false →
  pthread_setspecific_rc env = 0%Z →
  let r := Read t env ScopedPtr.default s in
  let s' := (thread_exit t (ScopedPtr_dtor r.1.2 r.2).2).2 in
  r.1.1 = 0%Z ∧
  dbd s' = dbd s ∧ heap s' = heap s ∧ specific s' = specific s ∧
  lock_run [] (new_events s s') = Some [].
Proof.
  intros Hl Hk Hsp Hn Hp Hrc r s'. subst s' r.
  rewrite Read_eq, Hk, Hsp, AddWrapper_eq, Hn, Hp, Hrc. simpl.
  unfold ScopedPtr_dtor. simpl. step.
  rewrite thread_exit_eq. cbn [specific]. rewrite lookup_insert_eq.
  rewrite delete_Wrapper_eq. cbn [dbd heap specific trace].
  rewrite lookup_insert_eq. simpl.
  set (w := fresh (dom (heap s))).
  assert (Hw : w ∉ _wrappers (dbd s)) by by apply fresh_not_registered.
  assert (Hh : heap s !! w = None) by apply not_elem_of_dom, is_fresh.
  rewrite remove_wrapper_snoc by done.
  rewrite !delete_insert_eq, !delete_id by done.
  erewrite new_events_app by (by rewrite <- !app_assoc).
  cbn [app]. locks. split_and!; try done. by destruct (dbd s).
Qed.

End ReadOperations.

(** A first read and the exit of thread 0 on a fresh container. *)
Lemma registration_round_trip_witness :
  dbd (thread_exit 0%nat
         (ScopedPtr_dtor (Read 0%nat env_ok ScopedPtr.default int_dbd).1.2
            (Read 0%nat env_ok ScopedPtr.default int_dbd).2).2).2
  = dbd int_dbd.
Proof.
  pose proof (registration_round_trip 0%nat env_ok int_dbd
                registry_live_int_dbd eq_refl eq_refl eq_refl eq_refl
                eq_refl) as (_ & Hd & _).
  exact Hd.
Defined.

(** Thread 1 of the container with three readers reads again, with a
    platform that would refuse everything. *)
Lemma Read_registers_a_thread_once_witness :
  ScopedPtr._w
    (Read 1%nat env_new_fails ScopedPtr.default
       (ScopedPtr_dtor
          (Read 1%nat env_ok ScopedPtr.default int_dbd_3readers).1.2
          (Read 1%nat env_ok ScopedPtr.default int_dbd_3readers).2).2).1.2
  = Some 2%positive.
Proof.
  destruct (Read_registers_a_thread_once 1%nat env_ok env_new_fails
              ScopedPtr.default ScopedPtr.default int_dbd_3readers)
    as (_ & Hw & _).
  - reflexivity.
  - rewrite Hw. reflexivity.
Defined.

(** ** What every reachable state satisfies *)

Section ReachableStates.

Context {T : Type}.
Implicit Types s : world T.

Lemma Modify_keeps_registry {Fn : Type} `{!Callable (T := T) Fn}
  (fn : Fn) s :
  registry_is_heap s → no_key_no_readers s →
  registry_is_heap (Modify fn s).2 ∧ no_key_no_readers (Modify fn s).2.
Proof.
  intros Hr Hk.
  destruct (Modify_readers_frame fn s) as (Hw & Hc & _ & Hh & Hs).
  unfold registry_is_heap, no_key_no_readers.
  rewrite Hw, Hc, Hh, Hs. by split.
Qed.

Lemma Read_keeps_registry t env ptr s :
  registry_live s → registry_is_heap s → no_key_no_readers s →
  registry_is_heap (Read t env ptr s).2 ∧
  no_key_no_readers (Read t env ptr s).2.
Proof.
  intros Hl Hr Hk.
  assert (Hnew : ∀ sp tr,
    registry_is_heap
      (mkWorld
         (set_wrappers (_wrappers (dbd s) ++ [fresh (dom (heap s))]) (dbd s))
         (<[fresh (dom (heap s)) := mkWrapper this_control]> (heap s))
         sp tr)).
  { intros sp tr w. simpl. rewrite elem_of_app, list_elem_of_singleton.
    rewrite lookup_insert_is_Some. rewrite (Hr w). split.
    - intros [? | ->]; [|by left].
      destruct (decide (fresh (dom (heap s)) = w)); auto.
    - intros [<- | [_ ?]]; auto. }
  rewrite Read_eq.
  destruct (_created_key (dbd s)) eqn:Hc; simpl; [|by split].
  destruct (specific s !! t) as [w|] eqn:Ht; [by split|].
  destruct (new_succeeds env) eqn:Hn.
  2:{ rewrite AddWrapper_eq, Hn. by split. }
  destruct (push_back_throws env) eqn:Hp.
  { rewrite AddWrapper_throw_restores by done. by split. }
  rewrite AddWrapper_eq, Hn, Hp. cbn zeta iota beta.
  destruct (pthread_setspecific_rc env =? 0)%Z; simpl.
  - split; [apply Hnew|]. unfold no_key_no_readers. simpl.
    rewrite Hc. discriminate.
  - split; [apply Hnew|]. unfold no_key_no_readers. simpl.
    rewrite Hc. discriminate.
Qed.

Lemma thread_exit_keeps_registry t s :
  wf s → registry_is_heap s → no_key_no_readers s →
  registry_is_heap (thread_exit t s).2 ∧
  no_key_no_readers (thread_exit t s).2.
Proof.
  intros [Hi Hnd Hl [Hsp Hinj]] Hr Hk. rewrite thread_exit_eq.
  destruct (specific s !! t) as [w|] eqn:Ht; [|by split].
  rewrite delete_Wrapper_eq. cbn [dbd heap specific trace].
  rewrite (Hl w) by by eapply Hsp. simpl. split.
  - intros w'. simpl. destruct (decide (w' = w)) as [-> | Hne].
    + rewrite lookup_delete_eq. split.
      * intros Hin. by apply remove_wrapper_gone in Hin.
      * by intros [? ?].
    + rewrite lookup_delete_ne by done.
      rewrite remove_wrapper_others by done. apply Hr.
  - unfold no_key_no_readers. simpl. intros Hc.
    destruct (Hk Hc) as [_ He]. rewrite He in Ht.
    by rewrite lookup_empty in Ht.
Qed.

Lemma ScopedPtr_dtor_keeps_registry ptr s :
  registry_is_heap s → no_key_no_readers s →
  registry_is_heap (ScopedPtr_dtor ptr s).2 ∧
  no_key_no_readers (ScopedPtr_dtor ptr s).2.
Proof.
  intros Hr Hk. unfold ScopedPtr_dtor.
  destruct (ScopedPtr._w ptr); by split.
Qed.

Lemma reachable_from_invariants s0 s :
  reachable_from s0 s →
  wf s0 → registry_is_heap s0 → no_key_no_readers s0 →
  wf s ∧ registry_is_heap s ∧ no_key_no_readers s.
Proof.
  intros Hreach H0 H1 H2.
  induction Hreach as [| Fn C fn s _ IH | t env ptr s _ IH | ptr s _ IH
                       | t s _ IH]; [done|..];
    destruct IH as (Hwf & Hr & Hk).
  - split; [by apply Modify_wf|by apply Modify_keeps_registry].
  - split; [by apply Read_wf|].
    apply Read_keeps_registry; [apply Hwf|done|done].
  - split; [by apply ScopedPtr_dtor_wf|].
    by apply ScopedPtr_dtor_keeps_registry.
  - split; [by apply thread_exit_wf|by apply thread_exit_keeps_registry].
Qed.

Lemma reachable_from_frame s0 s :
  reachable_from s0 s →
  _created_key (dbd s) = _created_key (dbd s0) ∧
  _wrapper_key (dbd s) = _wrapper_key (dbd s0).
Proof.
  induction 1 as [| Fn C fn s _ IH | t env ptr s _ IH | ptr s _ IH
                  | t s _ IH]; [done|..]; destruct IH as [IH1 IH2].
  - destruct (Modify_readers_frame fn s) as (_ & Hc & Hk & _).
    by rewrite Hc, Hk.
  - destruct (Read_frame t env ptr s) as (_ & _ & Hc & Hk).
    by rewrite Hc, Hk.
  - unfold ScopedPtr_dtor. by destruct (ScopedPtr._w ptr).
  - destruct (thread_exit_frame t s) as (_ & _ & Hc & Hk).
    by rewrite Hc, Hk.
Qed.

Context `{!Value T}.

Lemma ctor_registry (env : ctor_env T) :
  registry_is_heap (DoublyBufferedData_ctor env) ∧
  no_key_no_readers (DoublyBufferedData_ctor env).
Proof.
  rewrite DoublyBufferedData_ctor_eq. split.
  - intros w. simpl. rewrite lookup_empty. split.
    + by intros ?%elem_of_nil.
    + by intros [? ?].
  - by intros _.
Qed.

Lemma reachable_reachable_from s :
  reachable s → ∃ env, reachable_from (DoublyBufferedData_ctor env) s.
Proof.
  induction 1 as [env | Fn C fn s _ [env IH] | t renv ptr s _ [env IH]
                  | ptr s _ [env IH] | t s _ [env IH]];
    exists env; by constructor.
Qed.

Lemma reachable_invariants s :
  reachable s → wf s ∧ registry_is_heap s ∧ no_key_no_readers s.
Proof.
  intros [env Hs]%reachable_reachable_from.
  apply (reachable_from_invariants _ _ Hs).
  - apply DoublyBufferedData_ctor_wf.
  - apply ctor_registry.
  - apply ctor_registry.
Qed.

(** X2: in every state that construction, writes, reads, guard releases
    and thread exits can produce, the registered records are exactly the
    live ones, the record a thread has bound is live, and a container
    without a key has neither records nor bindings. *)
Theorem reachable_registry_matches_heap s :
  reachable s →
  (∀ w, w ∈ _wrappers (dbd s) ↔ is_Some (heap s !! w)) ∧
  (∀ t w, specific s !! t = Some w →
          heap s !! w = Some (mkWrapper this_control)) ∧
  (_created_key (dbd s) = false →
   _wrappers (dbd s) = [] ∧ heap s = ∅ ∧ specific s = ∅).
Proof.
  intros (Hwf & Hr & Hk)%reachable_invariants.
  destruct Hwf as [_ _ Hl [Hsp _]].
  split_and!; [done| |].
  - intros t w Ht. apply Hl. by eapply Hsp.
  - intros Hc. destruct (Hk Hc) as [Hw Hs]. split_and!; [done| |done].
    apply map_eq. intros w. rewrite lookup_empty.
    apply eq_None_not_Some. rewrite <- (Hr w), Hw. by intros ?%elem_of_nil.
Qed.

(** X18: when [pthread_key_create] fails, the constructor writes one line to
    [std::cerr] and leaves [_created_key] false; from then on, whatever
    writes, reads and thread exits follow, every [Read] returns -1 and
    leaves the guard and the world exactly as they were, so no reader is
    ever registered. *)
Theorem key_creation_failure_disables_Read (env : ctor_env T) s :
  pthread_key_create_rc env ≠ 0%Z →
  reachable_from (DoublyBufferedData_ctor env) s →
  trace (DoublyBufferedData_ctor env)
  = [Cerr ("Fail to pthread_key_create: "
           +:+ strerror_r env (pthread_key_create_rc env) +:+ endl)] ∧
  _created_key (dbd s) = false ∧
  (∀ t renv ptr, Read t renv ptr s = ((-1)%Z, ptr, s)) ∧
  _wrappers (dbd s) = [] ∧ specific s = ∅.
Proof.
  intros Hrc Hs. apply Z.eqb_neq in Hrc.
  assert (Hc : _created_key (dbd s) = false).
  { destruct (reachable_from_frame _ _ Hs) as [-> _].
    rewrite DoublyBufferedData_ctor_eq. simpl. exact Hrc. }
  destruct (reachable_from_invariants _ _ Hs) as (_ & _ & Hk).
  { apply DoublyBufferedData_ctor_wf. }
  { apply ctor_registry. }
  { apply ctor_registry. }
  split_and!.
  - rewrite DoublyBufferedData_ctor_eq. simpl. by rewrite Hrc.
  - done.
  - intros t renv ptr. by rewrite Read_eq, Hc.
  - by apply Hk.
  - by apply Hk.
Qed.

(** When [pthread_key_create] succeeds, the constructor writes nothing and
    [_created_key] stays true for as long as the container is used. *)
Lemma key_creation_success (env : ctor_env T) s :
  pthread_key_create_rc env = 0%Z →
  reachable_from (DoublyBufferedData_ctor env) s →
  trace (DoublyBufferedData_ctor env) = [] ∧
  _created_key (dbd s) = true ∧ _wrapper_key (dbd s) = new_key env.
Proof.
  intros Hrc Hs.
  destruct (reachable_from_frame _ _ Hs) as [-> ->].
  rewrite DoublyBufferedData_ctor_eq. simpl. by rewrite Hrc.
Qed.

End ReachableStates.

(** ** Destruction *)

Section Destruction.

Context {T : Type}.
Implicit Types s : world T.

Lemma detach_and_delete_eq w s :
  detach_and_delete w s
  = (tt, mkWorld (dbd s) (delete w (heap s)) (specific s) (trace s)).
Proof.
  unfold detach_and_delete. step. rewrite delete_Wrapper_eq. step.
  rewrite lookup_alter_eq, delete_alter_eq. by destruct (heap s !! w).
Qed.

Lemma for_each_detach_and_delete ws s :
  for_each detach_and_delete ws s
  = (tt, mkWorld (dbd s) (foldr delete (heap s) (reverse ws))
           (specific s) (trace s)).
Proof.
  revert s. induction ws as [|w ws IH]; intros s.
  - by destruct s.
  - cbn [for_each]. unfold mbind, M_bind.
    rewrite detach_and_delete_eq, IH. simpl.
    by rewrite reverse_cons, foldr_app.
Qed.

Lemma DoublyBufferedData_dtor_eq s :
  DoublyBufferedData_dtor s =
  (tt, mkWorld (set_wrappers [] (dbd s))
         (foldr delete (heap s) (reverse (_wrappers (dbd s))))
         (if _created_key (dbd s) then ∅ else specific s)
         (trace s ++ [Lock _wrappers_mutex; Unlock _wrappers_mutex])).
Proof.
  unfold DoublyBufferedData_dtor. step.
  destruct (_created_key (dbd s)); step;
    rewrite for_each_detach_and_delete; step;
    by rewrite <- app_assoc.
Qed.

(** X19: destroying the container of any reachable state frees every record
    and leaves nothing behind: the registry, the heap of records and the
    per-thread storage are empty.  The registry lock is taken once, so no
    record's destructor has called [RemoveWrapper] from inside the loop;
    the slots and the index are not touched; and a thread that exits
    afterwards finds nothing to destroy. *)
Theorem dtor_releases_every_record `{!Value T} s :
  reachable s →
  let s' := (DoublyBufferedData_dtor s).2 in
  _wrappers (dbd s') = [] ∧ heap s' = ∅ ∧ specific s' = ∅ ∧
  _data (dbd s') = _data (dbd s) ∧ _index (dbd s') = _index (dbd s) ∧
  new_events s s' = [Lock _wrappers_mutex; Unlock _wrappers_mutex] ∧
  ∀ t, thread_exit t s' = (tt, s').
Proof.
  intros (_ & Hr & Hk)%reachable_invariants s'. subst s'.
  rewrite DoublyBufferedData_dtor_eq. cbn [snd dbd heap specific trace].
  rewrite new_events_mk.
  assert (Hsp : (if _created_key (dbd s) then ∅ else specific s)
                = (∅ : gmap tid addr)).
  { destruct (_created_key (dbd s)) eqn:Hc; [done|]. by apply Hk. }
  rewrite Hsp. split_and!; try done.
  - apply map_eq. intros w. rewrite lookup_empty.
    destruct (decide (w ∈ _wrappers (dbd s))) as [Hin | Hnin].
    + apply lookup_foldr_delete. by apply elem_of_reverse.
    + rewrite lookup_foldr_delete_not_elem_of
        by by rewrite elem_of_reverse.
      apply eq_None_not_Some. by rewrite <- (Hr w).
Qed.

End Destruction.

Lemma reachable_int_dbd_3readers : reachable int_dbd_3readers.
Proof. repeat apply reach_Read. apply reach_ctor. Qed.

(** The container with three readers is destroyed. *)
Lemma dtor_releases_every_record_witness :
  heap (DoublyBufferedData_dtor int_dbd_3readers).2 = ∅ ∧
  _wrappers (dbd (DoublyBufferedData_dtor int_dbd_3readers).2) = [].
Proof.
  destruct (dtor_releases_every_record int_dbd_3readers
              reachable_int_dbd_3readers) as (Hw & Hh & _).
  split; [exact Hh | exact Hw].
Defined.

(** The invariants on the container with three readers. *)
Lemma reachable_wf_witness :
  NoDup (_wrappers (dbd int_dbd_3readers)) ∧ index_ok int_dbd_3readers.
Proof.
  destruct (reachable_wf int_dbd_3readers reachable_int_dbd_3readers)
    as [Hi Hnd _ _].
  split; [exact Hnd | exact Hi].
Defined.

Lemma reachable_registry_matches_heap_witness :
  heap int_dbd_3readers !! 3%positive = Some (mkWrapper this_control).
Proof.
  destruct (reachable_registry_matches_heap int_dbd_3readers
              reachable_int_dbd_3readers) as (_ & Hb & _).
  apply (Hb 2%nat). reflexivity.
Defined.

(** A container without a key, after a write: a read still fails. *)
Lemma key_creation_failure_disables_Read_witness :
  Read 0%nat env_ok ScopedPtr.default
    (Modify (setter 5%Z 1%N) int_dbd_nokey).2
  = ((-1)%Z, ScopedPtr.default, (Modify (setter 5%Z 1%N) int_dbd_nokey).2).
Proof.
  destruct (key_creation_failure_disables_Read int_env_nokey
              (Modify (setter 5%Z 1%N) int_dbd_nokey).2)
    as (_ & _ & Hr & _).
  - discriminate.
  - apply from_Modify. apply from_start.
  - apply Hr.
Defined.

(** ** Writers with arguments *)

Lemma lnot_lnot_lnot x : lnot (lnot (lnot x)) = lnot x.
Proof. apply lnot_involutive, lnot_range. Qed.

(** What [Modify] does with an adaptor, in terms of what the adaptor's
    two calls return. *)
Lemma Modify_cases {T C : Type} `{!Callable (T := T) C} (c : C) (s : world T)
  c1 v1 r1 c2 v2 r2 :
  let bg := lnot (_index (dbd s)) in
  let d := _data (dbd s) in
  call c d bg = (c1, v1, r1) →
  call c1 (data_set d bg v1) (lnot bg) = (c2, v2, r2) →
  let s' := (Modify c s).2 in
  if (r1 =? 0)%N then
    (Modify c s).1 = (c1, 0%N) ∧ _data (dbd s') = data_set d bg v1 ∧
    _index (dbd s') = _index (dbd s)
  else
    (Modify c s).1 = (c2, r2) ∧
    _data (dbd s') = data_set (data_set d bg v1) (lnot bg) v2 ∧
    _index (dbd s') = bg.
Proof.
  intros bg d H1 H2 s'. subst s'. rewrite Modify_eq.
  unfold first_application. fold bg d. rewrite H1. simpl.
  destruct (r1 =? 0)%N; [done|]. fold bg d. by rewrite H2.
Qed.

(** X8: [Modify(fn, arg1)] and [Modify(fn, arg1, arg2)] hand the same
    arguments to both applications of [fn], the first on the background
    slot and the second on the other slot, and give back the user's
    function object as the second application left it.  When the first
    application returns 0 only the background slot is written and the
    index stays. *)
Theorem Modify_passes_arguments_to_both_applications :
  (∀ (T Fn A1 : Type) `(!Fn1 (T := T) Fn A1) (fn : Fn) (a1 : A1)
     (s : world T) fn1 v1 r1 fn2 v2 r2,
     let bg := lnot (_index (dbd s)) in
     let d := _data (dbd s) in
     apply1 fn (data_get d bg) a1 = (fn1, v1, r1) →
     apply1 fn1 (data_get d (lnot bg)) a1 = (fn2, v2, r2) →
     let s' := (Modify1 fn a1 s).2 in
     if (r1 =? 0)%N then
       (Modify1 fn a1 s).1 = (fn1, 0%N) ∧
       _data (dbd s') = data_set d bg v1 ∧
       _index (dbd s') = _index (dbd s)
     else
       (Modify1 fn a1 s).1 = (fn2, r2) ∧
       _data (dbd s') = data_set (data_set d bg v1) (lnot bg) v2 ∧
       _index (dbd s') = bg) ∧
  (∀ (T Fn A1 A2 : Type) `(!Fn2 (T := T) Fn A1 A2) (fn : Fn) (a1 : A1)
     (a2 : A2) (s : world T) fn1 v1 r1 fn2 v2 r2,
     let bg := lnot (_index (dbd s)) in
     let d := _data (dbd s) in
     apply2 fn (data_get d bg) a1 a2 = (fn1, v1, r1) →
     apply2 fn1 (data_get d (lnot bg)) a1 a2 = (fn2, v2, r2) →
     let s' := (Modify2 fn a1 a2 s).2 in
     if (r1 =? 0)%N then
       (Modify2 fn a1 a2 s).1 = (fn1, 0%N) ∧
       _data (dbd s') = data_set d bg v1 ∧
       _index (dbd s') = _index (dbd s)
     else
       (Modify2 fn a1 a2 s).1 = (fn2, r2) ∧
       _data (dbd s') = data_set (data_set d bg v1) (lnot bg) v2 ∧
       _index (dbd s') = bg).
Proof.
  split.
  - intros T Fn A1 ? fn a1 s fn1 v1 r1 fn2 v2 r2 bg d H1 H2 s'. subst s'.
    pose proof (Modify_cases (mkClosure1 fn a1) s
                  (mkClosure1 fn1 a1) v1 r1 (mkClosure1 fn2 a1) v2 r2) as Hm.
    cbn zeta in Hm. fold bg d in Hm.
    unfold call, Closure1_call in Hm. simpl in Hm.
    rewrite data_get_lnot_set, H1, H2 in Hm.
    specialize (Hm eq_refl eq_refl).
    unfold Modify1. unfold mbind, M_bind, mret, M_ret.
    destruct (Modify (mkClosure1 fn a1) s) as [[c r] s1]. simpl in *.
    destruct (r1 =? 0)%N; destruct Hm as ([= -> ->] & ? & ?); by simpl.
  - intros T Fn A1 A2 ? fn a1 a2 s fn1 v1 r1 fn2 v2 r2 bg d H1 H2 s'.
    subst s'.
    pose proof (Modify_cases (mkClosure2 fn a1 a2) s
                  (mkClosure2 fn1 a1 a2) v1 r1 (mkClosure2 fn2 a1 a2) v2 r2)
      as Hm.
    cbn zeta in Hm. fold bg d in Hm.
    unfold call, Closure2_call in Hm. simpl in Hm.
    rewrite data_get_lnot_set, H1, H2 in Hm.
    specialize (Hm eq_refl eq_refl).
    unfold Modify2. unfold mbind, M_bind, mret, M_ret.
    destruct (Modify (mkClosure2 fn a1 a2) s) as [[c r] s1]. simpl in *.
    destruct (r1 =? 0)%N; destruct Hm as ([= -> ->] & ? & ?); by simpl.
Qed.

(** [bg += 3] on slots (5, 5), and [main.cpp]'s first write. *)
Lemma Modify_passes_arguments_to_both_applications_witness :
  _data (dbd (Modify1 add_const 3%Z
                (Modify (setter 5%Z 1%N) int_dbd).2).2) = (8%Z, 8%Z) ∧
  _data (dbd (Modify2 AddDbd 1%Z "test-1" main_dbd).2)
  = (mkDbdTest 1 "test-1", mkDbdTest 1 "test-1").
Proof.
  pose proof Modify_passes_arguments_to_both_applications as [H1 H2].
  split.
  - pose proof (H1 Z _ Z _ add_const 3%Z (Modify (setter 5%Z 1%N) int_dbd).2
                  add_const 8%Z 1%N add_const 8%Z 1%N eq_refl eq_refl)
      as (_ & Hd & _).
    exact Hd.
  - pose proof (H2 DbdTest _ Z string _ AddDbd 1%Z "test-1" main_dbd
                  AddDbd (mkDbdTest 1 "test-1") 1%N
                  AddDbd (mkDbdTest 1 "test-1") 1%N eq_refl eq_refl)
      as (_ & Hd & _).
    exact Hd.
Defined.

(** X9: [ModifyWithForeground(fn, arg1)] and
    [ModifyWithForeground(fn, arg1, arg2)] hand [fn] the slot to mutate,
    the other slot as [const T&] and the same arguments in both
    applications: the first sees the slot that is still foreground, the
    second sees what the first has just written and published. *)
Theorem ModifyWithForeground_passes_arguments :
  (∀ (T Fn A1 : Type) `(!FnFG1 (T := T) Fn A1) (fn : Fn) (a1 : A1)
     (s : world T) fn1 v1 r1 fn2 v2 r2,
     let bg := lnot (_index (dbd s)) in
     let d := _data (dbd s) in
     applyFG1 fn (data_get d bg) (data_get d (lnot bg)) a1 = (fn1, v1, r1) →
     applyFG1 fn1 (data_get d (lnot bg)) v1 a1 = (fn2, v2, r2) →
     let s' := (ModifyWithForeground1 fn a1 s).2 in
     if (r1 =? 0)%N then
       (ModifyWithForeground1 fn a1 s).1 = (fn1, 0%N) ∧
       _data (dbd s') = data_set d bg v1 ∧
       _index (dbd s') = _index (dbd s)
     else
       (ModifyWithForeground1 fn a1 s).1 = (fn2, r2) ∧
       _data (dbd s') = data_set (data_set d bg v1) (lnot bg) v2 ∧
       _index (dbd s') = bg) ∧
  (∀ (T Fn A1 A2 : Type) `(!FnFG2 (T := T) Fn A1 A2) (fn : Fn) (a1 : A1)
     (a2 : A2) (s : world T) fn1 v1 r1 fn2 v2 r2,
     let bg := lnot (_index (dbd s)) in
     let d := _data (dbd s) in
     applyFG2 fn (data_get d bg) (data_get d (lnot bg)) a1 a2
     = (fn1, v1, r1) →
     applyFG2 fn1 (data_get d (lnot bg)) v1 a1 a2 = (fn2, v2, r2) →
     let s' := (ModifyWithForeground2 fn a1 a2 s).2 in
     if (r1 =? 0)%N then
       (ModifyWithForeground2 fn a1 a2 s).1 = (fn1, 0%N) ∧
       _data (dbd s') = data_set d bg v1 ∧
       _index (dbd s') = _index (dbd s)
     else
       (ModifyWithForeground2 fn a1 a2 s).1 = (fn2, r2) ∧
       _data (dbd s') = data_set (data_set d bg v1) (lnot bg) v2 ∧
       _index (dbd s') = bg).
Proof.
  split.
  - intros T Fn A1 ? fn a1 s fn1 v1 r1 fn2 v2 r2 bg d H1 H2 s'. subst s'.
    pose proof (Modify_cases (mkWithFG1 fn a1) s
                  (mkWithFG1 fn1 a1) v1 r1 (mkWithFG1 fn2 a1) v2 r2) as Hm.
    cbn zeta in Hm. fold bg d in Hm.
    unfold call, WithFG1_call in Hm. simpl in Hm.
    rewrite !other_index_lnot in Hm. unfold bg in Hm at 6.
    rewrite lnot_lnot_lnot in Hm. fold bg in Hm.
    rewrite data_get_lnot_set, data_get_set_same, H1, H2 in Hm.
    specialize (Hm eq_refl eq_refl).
    unfold ModifyWithForeground1. unfold mbind, M_bind, mret, M_ret.
    destruct (Modify (mkWithFG1 fn a1) s) as [[c r] s1]. simpl in *.
    destruct (r1 =? 0)%N; destruct Hm as ([= -> ->] & ? & ?); by simpl.
  - intros T Fn A1 A2 ? fn a1 a2 s fn1 v1 r1 fn2 v2 r2 bg d H1 H2 s'.
    subst s'.
    pose proof (Modify_cases (mkWithFG2 fn a1 a2) s
                  (mkWithFG2 fn1 a1 a2) v1 r1 (mkWithFG2 fn2 a1 a2) v2 r2)
      as Hm.
    cbn zeta in Hm. fold bg d in Hm.
    unfold call, WithFG2_call in Hm. simpl in Hm.
    rewrite !other_index_lnot in Hm. unfold bg in Hm at 6.
    rewrite lnot_lnot_lnot in Hm. fold bg in Hm.
    rewrite data_get_lnot_set, data_get_set_same, H1, H2 in Hm.
    specialize (Hm eq_refl eq_refl).
    unfold ModifyWithForeground2. unfold mbind, M_bind, mret, M_ret.
    destruct (Modify (mkWithFG2 fn a1 a2) s) as [[c r] s1]. simpl in *.
    destruct (r1 =? 0)%N; destruct Hm as ([= -> ->] & ? & ?); by simpl.
Qed.

(** [bg = other + 2] from (5, 5), and [bg = 2 * other + 1] from (5, 5),
    on a container whose index is 1. *)
Lemma ModifyWithForeground_passes_arguments_witness :
  _data (dbd (ModifyWithForeground1 other_plus 2%Z
                (Modify (setter 5%Z 1%N) int_dbd).2).2) = (7%Z, 9%Z) ∧
  _data (dbd (ModifyWithForeground2 other_affine 2%Z 1%Z
                (Modify (setter 5%Z 1%N) int_dbd).2).2) = (11%Z, 23%Z).
Proof.
  pose proof ModifyWithForeground_passes_arguments as [H1 H2].
  split.
  - pose proof (H1 Z _ Z _ other_plus 2%Z
                  (Modify (setter 5%Z 1%N) int_dbd).2
                  other_plus 7%Z 1%N other_plus 9%Z 1%N eq_refl eq_refl)
      as (_ & Hd & _).
    exact Hd.
  - pose proof (H2 Z _ Z Z _ other_affine 2%Z 1%Z
                  (Modify (setter 5%Z 1%N) int_dbd).2
                  other_affine 11%Z 1%N other_affine 23%Z 1%N
                  eq_refl eq_refl)
      as (_ & Hd & _).
    exact Hd.
Defined.

(** ** Convergence of the slots *)

(** X10: [Modify] keeps equal slots equal when the callable is a function
    of the slot alone ([g], which may close over arguments) that leaves the
    slot as it is whenever it returns 0: both slots end up holding what
    [g] makes of their common value, and [Modify] returns what [g]
    returned. *)
Theorem Modify_keeps_equal_slots_equal
  {T C : Type} `{!Callable (T := T) C} (c : C) (g : T → T * size_t)
  (s : world T) :
  (∀ d i, call c d i = (c, (g (data_get d i)).1, (g (data_get d i)).2)) →
  (_data (dbd s)).1 = (_data (dbd s)).2 →
  ((g (_data (dbd s)).1).2 = 0%N →
   (g (_data (dbd s)).1).1 = (_data (dbd s)).1) →
  let s' := (Modify c s).2 in
  _data (dbd s')
  = ((g (_data (dbd s)).1).1, (g (_data (dbd s)).1).1) ∧
  (Modify c s).1 = (c, (g (_data (dbd s)).1).2).
Proof.
  intros Hc Heq H0 s'. subst s'.
  set (x := (_data (dbd s)).1) in *.
  assert (Hx : ∀ i, data_get (_data (dbd s)) i = x).
  { intros i. unfold data_get. destruct (i =? 0)%Z; [done|by symmetry]. }
  pose proof (Modify_cases c s c (g x).1 (g x).2 c (g x).1 (g x).2) as Hm.
  cbn zeta in Hm.
  rewrite !Hc, data_get_lnot_set, !Hx in Hm.
  specialize (Hm eq_refl eq_refl).
  destruct ((g x).2 =? 0)%N eqn:E.
  - apply N.eqb_eq in E. destruct Hm as (-> & -> & _).
    rewrite E, (H0 E). split; [|done].
    unfold data_set. destruct (_data (dbd s)) as [a b]. simpl in *.
    subst x. simpl in *. subst b. by destruct (lnot _ =? 0)%Z.
  - destruct Hm as (-> & -> & _). split; [|done].
    unfold data_set, lnot.
    destruct (_data (dbd s)) as [a b]. simpl.
    by destruct (_index (dbd s) =? 0)%Z.
Qed.

(** [bg += 3] through [Modify(fn, arg1)] on equal slots. *)
Lemma Modify_keeps_equal_slots_equal_witness :
  _data (dbd (Modify (mkClosure1 add_const 3%Z)
                (Modify (setter 5%Z 1%N) int_dbd).2).2) = (8%Z, 8%Z).
Proof.
  pose proof (Modify_keeps_equal_slots_equal (mkClosure1 add_const 3%Z)
                (λ x, add_const x 3%Z)
                (Modify (setter 5%Z 1%N) int_dbd).2) as Hm.
  destruct Hm as (Hd & _).
  - intros d i. reflexivity.
  - reflexivity.
  - discriminate.
  - exact Hd.
Defined.

(** ** A run of writes *)

Lemma Modify_setter {T} (v : T) (r : size_t) (s : world T) :
  r ≠ 0%N →
  _data (dbd (Modify (setter v r) s).2) = (v, v) ∧
  _index (dbd (Modify (setter v r) s).2) = lnot (_index (dbd s)).
Proof.
  intros Hr. rewrite Modify_eq. unfold first_application. simpl.
  apply N.eqb_neq in Hr. rewrite Hr. simpl. split; [|done].
  rewrite data_set_both. by destruct (_ =? _)%Z.
Qed.

Lemma modify_all_index {T} (vs : list (T * size_t)) (s : world T) :
  index_ok s → Forall (λ vr, vr.2 ≠ 0%N) vs →
  _index (dbd (modify_all vs s))
  = (if Nat.even (length vs) then _index (dbd s)
     else 1 - _index (dbd s))%Z.
Proof.
  revert s. induction vs as [|[v r] vs IH]; intros s Hi Hnz; [done|].
  apply Forall_cons in Hnz as [Hr Hnz]. simpl in Hr.
  change (modify_all ((v, r) :: vs) s)
    with (modify_all vs (Modify (setter v r) s).2).
  destruct (Modify_setter v r s Hr) as [_ Hidx].
  rewrite IH; [|unfold index_ok; rewrite Hidx; apply lnot_range|done].
  rewrite Hidx, (lnot_flip _ Hi).
  change (length ((v, r) :: vs)) with (S (length vs)).
  rewrite Nat.even_succ, <- Nat.negb_even.
  destruct (Nat.even (length vs)); simpl; [done|lia].
Qed.

(** X11: after a run of writes with setters that all return nonzero, both
    slots hold the value of the last setter, and the foreground index has
    flipped once per write: it is back where it started after an even
    number of writes and on the other slot after an odd number. *)
Theorem modify_all_last_setter_wins {T} (vs : list (T * size_t)) (v : T)
  (r : size_t) (s : world T) :
  index_ok s → Forall (λ vr, vr.2 ≠ 0%N) vs → r ≠ 0%N →
  let s' := modify_all (vs ++ [(v, r)]) s in
  _data (dbd s') = (v, v) ∧
  _index (dbd s')
  = (if Nat.even (length vs) then 1 - _index (dbd s)
     else _index (dbd s))%Z.
Proof.
  intros Hi Hnz Hr s'. subst s'. unfold modify_all at 1 2.
  rewrite foldl_app. simpl. fold (modify_all vs s).
  destruct (Modify_setter v r (modify_all vs s) Hr) as [Hd Hidx].
  split; [exact Hd|]. rewrite Hidx, modify_all_index by done.
  destruct (Nat.even (length vs)).
  - by apply lnot_flip.
  - destruct Hi as [-> | ->]; reflexivity.
Qed.

(** Three writes on a fresh container. *)
Lemma modify_all_last_setter_wins_witness :
  _data (dbd (modify_all [(1%Z, 1%N); (2%Z, 3%N); (7%Z, 1%N)] int_dbd))
  = (7%Z, 7%Z) ∧
  _index (dbd (modify_all [(1%Z, 1%N); (2%Z, 3%N); (7%Z, 1%N)] int_dbd))
  = 1%Z.
Proof.
  apply (modify_all_last_setter_wins [(1%Z, 1%N); (2%Z, 3%N)] 7%Z 1%N
           int_dbd).
  - left. reflexivity.
  - repeat constructor; discriminate.
  - discriminate.
Defined.
